(** * scrape_simplified: a shallow embedding of [scrape_simplified.py]

    The script downloads one page, finds the first table with a
    "Simplified" header column, and writes that column as a CSV file.

    Python values are modelled as follows.
    - [str] is a list of Unicode code points ([N]); [str.strip] uses the
      code points for which [str.isspace] holds.
    - a parsed document is a tree of [PageElement]s, with the part of
      BeautifulSoup's navigation the script uses ([find_all], [get_text]);
    - exceptions are values of [exn], carried by [result];
    - the outside world (network, file system, command line) is a record of
      oracles, and a run of [main] yields the list of effects it performed. *)

From Stdlib Require Import List NArith Bool Ascii String Lia Arith.
Import ListNotations.

Set Warnings "-register-all".
Local Open Scope N_scope.

(** ** Strings *)

Definition char := N.
Definition pystr := list char.

(** A literal of the source. *)
Definition str (s : string) : pystr := map N_of_ascii (list_ascii_of_string s).

Definition char_eqb : char -> char -> bool := N.eqb.

Fixpoint pystr_eqb (a b : pystr) : bool :=
  match a, b with
  | [], [] => true
  | x :: a', y :: b' => char_eqb x y && pystr_eqb a' b'
  | _, _ => false
  end.

(** [str.isspace] on one code point: the Unicode white space characters. *)
Definition isspace (c : char) : bool :=
  ((9 <=? c) && (c <=? 13)) || ((28 <=? c) && (c <=? 32))
  || (c =? 133) || (c =? 160) || (c =? 5760)
  || ((8192 <=? c) && (c <=? 8202))
  || (c =? 8232) || (c =? 8233) || (c =? 8239) || (c =? 8287) || (c =? 12288).

(** Drop the longest prefix of characters satisfying [p]. *)
Fixpoint lstrip_by (p : char -> bool) (s : pystr) : pystr :=
  match s with
  | [] => []
  | c :: s' => if p c then lstrip_by p s' else s
  end.

Definition rstrip_by (p : char -> bool) (s : pystr) : pystr :=
  rev (lstrip_by p (rev s)).

(** [s.strip()] *)
Definition strip (s : pystr) : pystr := rstrip_by isspace (lstrip_by isspace s).

(** [s.rstrip(chars)] *)
Definition rstrip (chars : pystr) (s : pystr) : pystr :=
  rstrip_by (fun c => existsb (char_eqb c) chars) s.

(** [s.split(sep)] for a one-character separator. *)
Fixpoint split (sep : char) (s : pystr) : list pystr :=
  match s with
  | [] => [[]]
  | c :: s' =>
      if char_eqb c sep then [] :: split sep s'
      else match split sep s' with
           | seg :: segs => (c :: seg) :: segs
           | [] => [[c]]
           end
  end.

(** [sep.join(parts)] *)
Fixpoint join (sep : pystr) (parts : list pystr) : pystr :=
  match parts with
  | [] => []
  | [p] => p
  | p :: ps => p ++ sep ++ join sep ps
  end.

(** Truth value of a sequence: [if xs:] *)
Definition truthy {A} (xs : list A) : bool :=
  match xs with [] => false | _ :: _ => true end.

(** ** Exceptions *)

(** Where an exception raised by a library call comes from. *)
Inductive origin :=
| FromPath | FromMkdir | FromRequests | FromUrlopen | FromOpen | FromWrite.

Inductive exn :=
| RuntimeError (msg : pystr)
| ValueError
| IndexError
| SystemExit (code : N)
| CsvError (msg : pystr)
| LibraryError (o : origin) (descr : pystr).

Inductive result (A : Type) :=
| Ok (a : A)
| Raise (e : exn).
Arguments Ok {A} a.
Arguments Raise {A} e.

Definition bind {A B} (r : result A) (k : A -> result B) : result B :=
  match r with
  | Ok a => k a
  | Raise e => Raise e
  end.

Declare Scope result_scope.
Delimit Scope result_scope with result.
Notation "x <- r ;; k" := (bind r (fun x => k))
  (at level 61, r at next level, right associativity) : result_scope.

(** [x in xs] and [xs.index(x)] on a list of strings. *)
Definition list_contains (x : pystr) (xs : list pystr) : bool :=
  existsb (pystr_eqb x) xs.

Fixpoint list_index (x : pystr) (xs : list pystr) : result nat :=
  match xs with
  | [] => Raise ValueError
  | y :: ys =>
      if pystr_eqb y x then Ok 0%nat
      else bind (list_index x ys) (fun i => Ok (S i))
  end.

(** [xs[i]] for a non-negative index. *)
Definition getitem {A} (xs : list A) (i : nat) : result A :=
  match nth_error xs i with
  | Some x => Ok x
  | None => Raise IndexError
  end.

(** ** The parsed document *)

(** A node of the tree BeautifulSoup builds.  [NavigableString] stands for the
    strings [get_text] collects, [Comment] for the string kinds it leaves out
    (comments, declarations, script and style bodies). *)
Inductive PageElement :=
| NavigableString (s : pystr)
| Comment (s : pystr)
| Tag (name : pystr) (contents : list PageElement).

(** [tag.descendants]: every node below [e], in document order. *)
Fixpoint descendants (e : PageElement) : list PageElement :=
  match e with
  | Tag _ cs => flat_map (fun c => c :: descendants c) cs
  | _ => []
  end.

Definition has_name (name : pystr) (e : PageElement) : bool :=
  match e with
  | Tag n _ => pystr_eqb n name
  | _ => false
  end.

(** [tag.find_all(name)] *)
Definition find_all (name : pystr) (e : PageElement) : list PageElement :=
  filter (has_name name) (descendants e).

(** The strings [get_text(strip=True)] joins: each string below [e],
    stripped, the empty ones dropped. *)
Definition all_strings_stripped (e : PageElement) : list pystr :=
  flat_map (fun d =>
              match d with
              | NavigableString s =>
                  let s' := strip s in if truthy s' then [s'] else []
              | _ => []
              end)
           (descendants e).

(** [tag.get_text(separator, strip=True)] *)
Definition get_text (separator : pystr) (e : PageElement) : pystr :=
  join separator (all_strings_stripped e).

(** ** extract_simplified *)

Definition SIMPLIFIED : pystr := Eval cbv in str "Simplified".
Definition MSG_MISSING_BS4 : pystr :=
  Eval cbv in
    str "Missing dependency: beautifulsoup4 (bs4). Install with: pip install beautifulsoup4".
Definition MSG_NO_TABLE : pystr :=
  Eval cbv in str "Could not find a table with a 'Simplified' header.".

Local Open Scope result_scope.

(** The first loop over the rows of a table: [None] when it runs to its end,
    [Some idx] when it leaves through [break]. *)
Fixpoint header_loop (trs : list PageElement) : result (option nat) :=
  match trs with
  | [] => Ok None
  | tr :: rest =>
      let ths := find_all (str "th") tr in
      if negb (truthy ths) then header_loop rest
      else
        let headers := map (get_text (str " ")) ths in
        if list_contains SIMPLIFIED headers then
          header_idx <- list_index SIMPLIFIED headers ;;
          Ok (Some header_idx)
        else header_loop rest
  end.

(** The second loop over the rows, threading the list [simplified]. *)
Fixpoint data_loop (header_idx : nat) (trs : list PageElement)
         (simplified : list pystr) : result (list pystr) :=
  match trs with
  | [] => Ok simplified
  | tr :: rest =>
      let tds := find_all (str "td") tr in
      if negb (truthy tds) || (List.length tds <=? header_idx)%nat then
        data_loop header_idx rest simplified
      else
        td <- getitem tds header_idx ;;
        let text := get_text [] td in
        if truthy text then data_loop header_idx rest (simplified ++ [text])
        else data_loop header_idx rest simplified
  end.

(** The loop over the tables; falling off its end reaches the final [raise]. *)
Fixpoint table_loop (tables : list PageElement) : result (list pystr) :=
  match tables with
  | [] => Raise (RuntimeError MSG_NO_TABLE)
  | table :: rest =>
      header_idx <- header_loop (find_all (str "tr") table) ;;
      match header_idx with
      | None => table_loop rest
      | Some idx =>
          simplified <- data_loop idx (find_all (str "tr") table) [] ;;
          if truthy simplified then Ok simplified else table_loop rest
      end
  end.

(** [BeautifulSoup] is the module-level name: [None] when the import failed,
    otherwise the parser ([BeautifulSoup(html, "html.parser")]). *)
Definition extract_simplified (BeautifulSoup : option (pystr -> PageElement))
           (html : pystr) : result (list pystr) :=
  match BeautifulSoup with
  | None => Raise (RuntimeError MSG_MISSING_BS4)
  | Some parse =>
      let soup := parse html in
      let tables := find_all (str "table") soup in
      table_loop tables
  end.

(** *** What the loops compute, stated on the rows of a table *)

Definition table_rows (table : PageElement) : list PageElement :=
  find_all (str "tr") table.

(** The labels of the header cells of a row. *)
Definition header_labels (tr : PageElement) : list pystr :=
  map (get_text (str " ")) (find_all (str "th") tr).

(** Position of the first element equal to [x]. *)
Fixpoint position (x : pystr) (xs : list pystr) : option nat :=
  match xs with
  | [] => None
  | y :: ys => if pystr_eqb y x then Some 0%nat else option_map S (position x ys)
  end.

(** The column of a table: the position of the first "Simplified" label in
    the first row that has one. *)
Definition simplified_column (table : PageElement) : option nat :=
  match find (fun tr => list_contains SIMPLIFIED (header_labels tr))
             (table_rows table) with
  | Some tr => position SIMPLIFIED (header_labels tr)
  | None => None
  end.

(** The text of the data cell of a row in column [idx]. *)
Definition cell_text (idx : nat) (tr : PageElement) : pystr :=
  match nth_error (find_all (str "td") tr) idx with
  | Some td => get_text [] td
  | None => []
  end.

(** A row counts when it has a data cell at [idx] whose text is not empty. *)
Definition row_counts (idx : nat) (tr : PageElement) : bool :=
  (idx <? List.length (find_all (str "td") tr))%nat && truthy (cell_text idx tr).

Definition counting_rows (idx : nat) (table : PageElement) : list PageElement :=
  filter (row_counts idx) (table_rows table).

Definition column_values (idx : nat) (table : PageElement) : list pystr :=
  map (cell_text idx) (counting_rows idx table).

(** A table qualifies when it has the header and at least one value. *)
Definition qualifies (table : PageElement) : bool :=
  match simplified_column table with
  | Some idx => truthy (column_values idx table)
  | None => false
  end.

(** ** The csv module, excel dialect

    [csv.writer(f)] and [csv.reader(f)] with their defaults: delimiter comma,
    quote character the double quote, written twice inside a field, no escape character, QUOTE_MINIMAL,
    line terminator CR LF, not strict (CPython 3.11 and later, where a NUL
    is an ordinary character). *)

Definition DELIMITER : char := 44.
Definition QUOTECHAR : char := 34.
Definition CR : char := 13.
Definition LF : char := 10.
Definition LINETERMINATOR : pystr := [CR; LF].

(** A character that forces the field to be quoted. *)
Definition needs_quote (c : char) : bool :=
  char_eqb c DELIMITER || char_eqb c QUOTECHAR
  || existsb (char_eqb c) LINETERMINATOR.

(** The characters copied for a field: a quote character is written twice. *)
Fixpoint copy_field (field : pystr) : pystr :=
  match field with
  | [] => []
  | c :: rest =>
      if char_eqb c QUOTECHAR then QUOTECHAR :: QUOTECHAR :: copy_field rest
      else c :: copy_field rest
  end.

(** [join_append]: one field of a record, quoted when it has to be; an empty
    field is quoted when it is the only one of its record. *)
Definition join_append (field : pystr) (quote_empty : bool) : pystr :=
  let quoted := existsb needs_quote field || (negb (truthy field) && quote_empty) in
  if quoted then QUOTECHAR :: copy_field field ++ [QUOTECHAR]
  else copy_field field.

(** The text [writer.writerow(row)] hands to [f.write]. *)
Definition writerow (row : list pystr) : pystr :=
  let quote_empty := (List.length row =? 1)%nat in
  join [DELIMITER] (map (fun field => join_append field quote_empty) row)
  ++ LINETERMINATOR.

(** Iterating a text file opened with [newline=""]: the lines, each with its
    terminator (LF, CR LF or a lone CR) kept.  [cur] is the part of the
    current line already read. *)
Fixpoint readlines_from (s : pystr) (cur : pystr) : list pystr :=
  match s with
  | [] => if truthy cur then [cur] else []
  | c :: s' =>
      if char_eqb c LF then (cur ++ [c]) :: readlines_from s' []
      else if char_eqb c CR then
        match s' with
        | c2 :: s'' =>
            if char_eqb c2 LF then (cur ++ [c; c2]) :: readlines_from s'' []
            else (cur ++ [c]) :: readlines_from s' []
        | [] => [cur ++ [c]]
        end
      else readlines_from s' (cur ++ [c])
  end.

Definition readlines (s : pystr) : list pystr := readlines_from s [].

Inductive ParserState :=
| START_RECORD | START_FIELD | IN_FIELD | IN_QUOTED_FIELD
| QUOTE_IN_QUOTED_FIELD | EAT_CRNL.

Definition ParserState_eqb (a b : ParserState) : bool :=
  match a, b with
  | START_RECORD, START_RECORD | START_FIELD, START_FIELD
  | IN_FIELD, IN_FIELD | IN_QUOTED_FIELD, IN_QUOTED_FIELD
  | QUOTE_IN_QUOTED_FIELD, QUOTE_IN_QUOTED_FIELD | EAT_CRNL, EAT_CRNL => true
  | _, _ => false
  end.

(** The reader object: its state, the field being read, the fields of the
    record read so far. *)
Record Reader := mkReader {
  state : ParserState;
  field : pystr;
  fields : list pystr
}.

(** [parse_reset] *)
Definition parse_reset : Reader := mkReader START_RECORD [] [].

Definition parse_add_char (r : Reader) (c : char) : Reader :=
  mkReader (state r) (field r ++ [c]) (fields r).

Definition parse_save_field (r : Reader) : Reader :=
  mkReader (state r) [] (fields r ++ [field r]).

Definition set_state (r : Reader) (s : ParserState) : Reader :=
  mkReader s (field r) (fields r).

Definition is_newline (c : char) : bool := char_eqb c LF || char_eqb c CR.

(** What the parser is fed: a character of a line, or the end of the line. *)
Inductive input := Char (c : char) | EOL.

Definition is_line_end (i : input) : bool :=
  match i with Char c => is_newline c | EOL => true end.

Definition is_char (i : input) (d : char) : bool :=
  match i with Char c => char_eqb c d | EOL => false end.

Definition after_line_end (i : input) : ParserState :=
  match i with EOL => START_RECORD | Char _ => EAT_CRNL end.

Definition MSG_NEWLINE_IN_FIELD : pystr :=
  Eval cbv in
    str "new-line character seen in unquoted field - do you need to open the file with newline=''?".

(** [parse_process_char]: one step of the reader's state machine.  The case
    START_RECORD falls through to START_FIELD on an ordinary character. *)
Definition parse_process_char (r : Reader) (i : input) : result Reader :=
  let start_field (r : Reader) : result Reader :=
    if is_line_end i then
      Ok (set_state (parse_save_field r) (after_line_end i))
    else if is_char i QUOTECHAR then Ok (set_state r IN_QUOTED_FIELD)
    else if is_char i DELIMITER then Ok (parse_save_field r)
    else match i with
         | Char c => Ok (set_state (parse_add_char r c) IN_FIELD)
         | EOL => Ok r
         end in
  match state r with
  | START_RECORD =>
      match i with
      | EOL => Ok r
      | Char c =>
          if is_newline c then Ok (set_state r EAT_CRNL)
          else start_field (set_state r START_FIELD)
      end
  | START_FIELD => start_field r
  | IN_FIELD =>
      if is_line_end i then
        Ok (set_state (parse_save_field r) (after_line_end i))
      else if is_char i DELIMITER then
        Ok (set_state (parse_save_field r) START_FIELD)
      else match i with
           | Char c => Ok (parse_add_char r c)
           | EOL => Ok r
           end
  | IN_QUOTED_FIELD =>
      match i with
      | EOL => Ok r
      | Char c =>
          if char_eqb c QUOTECHAR then Ok (set_state r QUOTE_IN_QUOTED_FIELD)
          else Ok (parse_add_char r c)
      end
  | QUOTE_IN_QUOTED_FIELD =>
      if is_char i QUOTECHAR then
        Ok (set_state (parse_add_char r QUOTECHAR) IN_QUOTED_FIELD)
      else if is_char i DELIMITER then
        Ok (set_state (parse_save_field r) START_FIELD)
      else if is_line_end i then
        Ok (set_state (parse_save_field r) (after_line_end i))
      else match i with
           | Char c => Ok (set_state (parse_add_char r c) IN_FIELD)
           | EOL => Ok r
           end
  | EAT_CRNL =>
      match i with
      | EOL => Ok (set_state r START_RECORD)
      | Char c =>
          if is_newline c then Ok r
          else Raise (CsvError MSG_NEWLINE_IN_FIELD)
      end
  end.

(** The characters of one line, in turn. *)
Fixpoint parse_line (r : Reader) (line : pystr) : result Reader :=
  match line with
  | [] => Ok r
  | c :: rest => r' <- parse_process_char r (Char c) ;; parse_line r' rest
  end.

(** [list(csv.reader(f))]: [Reader_iternext] called until the lines run out.
    Each call starts from [parse_reset] and takes lines until the state is
    START_RECORD again; [r] is the reader inside the current call. *)
Fixpoint read_records (lines : list pystr) (r : Reader)
  : result (list (list pystr)) :=
  match lines with
  | [] =>
      if truthy (field r) || ParserState_eqb (state r) IN_QUOTED_FIELD then
        Ok [fields (parse_save_field r)]
      else Ok []
  | line :: rest =>
      r1 <- parse_line r line ;;
      r2 <- parse_process_char r1 EOL ;;
      if ParserState_eqb (state r2) START_RECORD then
        records <- read_records rest parse_reset ;;
        Ok (fields r2 :: records)
      else read_records rest r2
  end.

Definition csv_read (text : pystr) : result (list (list pystr)) :=
  read_records (readlines text) parse_reset.

(** ** Decoding UTF-8 with [errors="replace"]

    A byte is an [N] below 256.  A well-formed sequence yields its code
    point; every maximal ill-formed part yields one U+FFFD. *)

Definition bytes := list N.
Definition REPLACEMENT : char := 65533.

Definition in_range (lo hi b : N) : bool := (lo <=? b) && (b <=? hi).

(** The bounds of the second byte after the lead byte [b0]. *)
Definition second_lo (b0 : N) : N :=
  if b0 =? 224 then 160 else if b0 =? 240 then 144 else 128.
Definition second_hi (b0 : N) : N :=
  if b0 =? 237 then 159 else if b0 =? 244 then 143 else 191.

Fixpoint utf8_decode_replace (bs : bytes) : pystr :=
  match bs with
  | [] => []
  | b0 :: r0 =>
      if b0 <? 128 then b0 :: utf8_decode_replace r0
      else if in_range 194 223 b0 then
        match r0 with
        | b1 :: r1 =>
            if in_range 128 191 b1 then
              ((b0 - 192) * 64 + (b1 - 128)) :: utf8_decode_replace r1
            else REPLACEMENT :: utf8_decode_replace r0
        | [] => [REPLACEMENT]
        end
      else if in_range 224 239 b0 then
        match r0 with
        | b1 :: r1 =>
            if in_range (second_lo b0) (second_hi b0) b1 then
              match r1 with
              | b2 :: r2 =>
                  if in_range 128 191 b2 then
                    ((b0 - 224) * 4096 + (b1 - 128) * 64 + (b2 - 128))
                      :: utf8_decode_replace r2
                  else REPLACEMENT :: utf8_decode_replace r1
              | [] => [REPLACEMENT]
              end
            else REPLACEMENT :: utf8_decode_replace r0
        | [] => [REPLACEMENT]
        end
      else if in_range 240 244 b0 then
        match r0 with
        | b1 :: r1 =>
            if in_range (second_lo b0) (second_hi b0) b1 then
              match r1 with
              | b2 :: r2 =>
                  if in_range 128 191 b2 then
                    match r2 with
                    | b3 :: r3 =>
                        if in_range 128 191 b3 then
                          ((b0 - 240) * 262144 + (b1 - 128) * 4096
                           + (b2 - 128) * 64 + (b3 - 128))
                            :: utf8_decode_replace r3
                        else REPLACEMENT :: utf8_decode_replace r2
                    | [] => [REPLACEMENT]
                    end
                  else REPLACEMENT :: utf8_decode_replace r1
              | [] => [REPLACEMENT]
              end
            else REPLACEMENT :: utf8_decode_replace r0
        | [] => [REPLACEMENT]
        end
      else REPLACEMENT :: utf8_decode_replace r0
  end.

(** ** The outside world *)

(** A path is the list of its components below the root. *)
Definition Path := list pystr.

Definition SLASH : char := 47.

(** [str(path)] *)
Definition path_str (p : Path) : pystr := SLASH :: join [SLASH] p.

(** The arguments of an HTTP GET: [requests.get(url, headers=..., timeout=...)]
    and [urlopen(Request(url, headers=...), timeout=...)]. *)
Record Request := mkRequest {
  req_url : pystr;
  req_headers : list (pystr * pystr);
  req_timeout : N
}.

(** The part of a [requests] response the script reads. *)
Record Response := mkResponse {
  status_code : N;
  text : pystr
}.

(** What a library call does: it returns, or it raises. *)
Inductive outcome (A : Type) :=
| Done (a : A)
| Failed (descr : pystr).
Arguments Done {A} a.
Arguments Failed {A} descr.

Definition library_call {A} (o : origin) (x : outcome A) : result A :=
  match x with
  | Done a => Ok a
  | Failed descr => Raise (LibraryError o descr)
  end.

(** An option argparse met on the command line. *)
Inductive option_seen :=
| SeenUrl (value : pystr)
| SeenDir (value : pystr)
| SeenNoHeader.

(** argparse's reading of [sys.argv]: the options met, in order, or the
    exit it takes on a malformed command line (status 2) or on [--help]
    (status 0). *)
Inductive argv_reading :=
| Options (seen : list option_seen)
| Exit (code : N).

Record World := mkWorld {
  (** [Path.home()] *)
  path_home : outcome Path;
  (** [sys.argv] as argparse reads it *)
  argv_options : argv_reading;
  (** [Path(s).expanduser().resolve()] *)
  path_resolve : pystr -> outcome Path;
  (** [p.mkdir(parents=True, exist_ok=True)] *)
  path_mkdir : Path -> outcome unit;
  (** [import requests] *)
  import_requests : outcome unit;
  requests_get : Request -> outcome Response;
  (** [urlopen(req, timeout=...)] followed by [f.read()] *)
  urlopen : Request -> outcome bytes;
  (** the module-level name [BeautifulSoup] *)
  BeautifulSoup : option (pystr -> PageElement);
  (** [p.open("w", ...)] *)
  path_open : Path -> outcome unit;
  (** the write of the [k]-th record to the open file *)
  file_write : nat -> pystr -> outcome unit
}.

(** The effects a run performs, in order. *)
Inductive event :=
| Mkdir (p : Path) (parents exist_ok : bool)
| ImportRequests
| RequestsGet (req : Request)
| Urlopen (req : Request)
| OpenFile (p : Path) (mode newline encoding : pystr)
| WriteFile (data : pystr)
| CloseFile
| Print (rows : nat) (p : Path).

(** A computation with effects: the effects performed and the result. *)
Definition IO (A : Type) : Type := list event * result A.

Definition ret {A} (a : A) : IO A := ([], Ok a).
Definition raise {A} (e : exn) : IO A := ([], Raise e).
Definition lift {A} (r : result A) : IO A := ([], r).
Definition perform {A} (ev : event) (r : result A) : IO A := ([ev], r).

Definition io_bind {A B} (m : IO A) (k : A -> IO B) : IO B :=
  match m with
  | (t, Ok a) => let (t', r) := k a in (t ++ t', r)
  | (t, Raise e) => (t, Raise e)
  end.

Declare Scope io_scope.
Delimit Scope io_scope with io.
Notation "x <- m ;; k" := (io_bind m (fun x => k))
  (at level 61, m at next level, right associativity) : io_scope.

(** [SystemExit] is not an [Exception]; the other exceptions are. *)
Definition is_Exception (e : exn) : bool :=
  match e with
  | SystemExit _ => false
  | _ => true
  end.

(** [try: body  except Exception: handler] *)
Definition try_except_Exception {A} (body handler : IO A) : IO A :=
  match body with
  | (t, Ok a) => (t, Ok a)
  | (t, Raise e) =>
      if is_Exception e then let (t', r) := handler in (t ++ t', r)
      else (t, Raise e)
  end.

(** [try: body  finally: ev] as the [with] statement does on leaving. *)
Definition finally {A} (body : IO A) (ev : event) : IO A :=
  let (t, r) := body in (t ++ [ev], r).

(** ** fetch_html *)

Definition USER_AGENT : pystr :=
  Eval cbv in str "Mozilla/5.0 (compatible; anki_tools/1.0)".
Definition USER_AGENT_KEY : pystr := Eval cbv in str "User-Agent".

(** [resp.raise_for_status()]: an HTTPError for a 4xx or 5xx status. *)
Definition raise_for_status (resp : Response) : result unit :=
  if in_range 400 599 (status_code resp) then
    Raise (LibraryError FromRequests (str "HTTPError"))
  else Ok tt.

Local Open Scope io_scope.

(** The body of the [try]. *)
Definition fetch_primary (w : World) (url : pystr) : IO pystr :=
  _ <- perform ImportRequests (library_call FromRequests (import_requests w)) ;;
  let headers := [(USER_AGENT_KEY, USER_AGENT)] in
  let req := mkRequest url headers 30 in
  resp <- perform (RequestsGet req)
                  (library_call FromRequests (requests_get w req)) ;;
  _ <- lift (raise_for_status resp) ;;
  ret (text resp).

(** The body of the [except]. *)
Definition fetch_fallback (w : World) (url : pystr) : IO pystr :=
  let req := mkRequest url [(USER_AGENT_KEY, USER_AGENT)] 30 in
  body <- perform (Urlopen req) (library_call FromUrlopen (urlopen w req)) ;;
  ret (utf8_decode_replace body).

Definition fetch_html (w : World) (url : pystr) : IO pystr :=
  try_except_Exception (fetch_primary w url) (fetch_fallback w url).

(** ** parse_args *)

Record Namespace := mkNamespace {
  url : pystr;
  out_dir : pystr;
  no_header : bool
}.

(** The value of [--url] after the options met: none by default, the last
    one given otherwise. *)
Definition store_url (seen : list option_seen) : option pystr :=
  fold_left (fun acc o => match o with SeenUrl v => Some v | _ => acc end)
            seen None.

Definition store_dir (default : pystr) (seen : list option_seen) : pystr :=
  fold_left (fun acc o => match o with SeenDir v => v | _ => acc end)
            seen default.

(** [action="store_true"] stores [True] each time the flag is met, starting
    from [default]. *)
Definition store_true (default : bool) (seen : list option_seen) : bool :=
  fold_left (fun acc o => match o with SeenNoHeader => true | _ => acc end)
            seen default.

Definition parse_args (w : World) : result Namespace :=
  (home <- library_call FromPath (path_home w) ;;
   let default_dir := home ++ [str "Documents"] in
   match argv_options w with
   | Exit code => Raise (SystemExit code)
   | Options seen =>
       match store_url seen with
       | None => Raise (SystemExit 2)
       | Some u =>
           Ok (mkNamespace u (store_dir (path_str default_dir) seen)
                           (store_true true seen))
       end
   end)%result.

(** ** main *)

Definition MSG_NO_NAME : pystr :=
  Eval cbv in str "Could not derive output file name from URL.".

(** [xs[-1]] *)
Definition last_item {A} (xs : list A) : result A :=
  match rev xs with
  | x :: _ => Ok x
  | [] => Raise IndexError
  end.

(** Lines 80 to 82: the base name of the output file. *)
Definition derive_base (url : pystr) : result pystr :=
  (base <- last_item (split SLASH (rstrip (str "/") url)) ;;
   if negb (truthy base) then Raise (RuntimeError MSG_NO_NAME)
   else Ok base)%result.

Definition csv_name (base : pystr) : pystr := base ++ str ".csv".

Definition writer_writerow (w : World) (k : nat) (row : list pystr) : IO unit :=
  let data := writerow row in
  perform (WriteFile data) (library_call FromWrite (file_write w k data)).

(** The loop over [simplified]; [k] counts the records already written. *)
Fixpoint write_items (w : World) (k : nat) (simplified : list pystr) : IO unit :=
  match simplified with
  | [] => ret tt
  | item :: rest =>
      _ <- writer_writerow w k [item] ;;
      write_items w (S k) rest
  end.

Definition main (w : World) : IO N :=
  args <- lift (parse_args w) ;;
  let url := url args in
  out_dir <- lift (library_call FromPath (path_resolve w (out_dir args))) ;;
  _ <- perform (Mkdir out_dir true true)
               (library_call FromMkdir (path_mkdir w out_dir)) ;;
  base <- lift (derive_base url) ;;
  let out_path := out_dir ++ [csv_name base] in
  html <- fetch_html w url ;;
  simplified <- lift (extract_simplified (BeautifulSoup w) html) ;;
  _ <- (_ <- perform (OpenFile out_path (str "w") [] (str "utf-8-sig"))
                     (library_call FromOpen (path_open w out_path)) ;;
        finally
          (k <- (if negb (no_header args) then
                   _ <- writer_writerow w 0 [SIMPLIFIED] ;; ret 1%nat
                 else ret 0%nat) ;;
           write_items w k simplified)
          CloseFile) ;;
  _ <- perform (Print (List.length simplified) out_path) (Ok tt) ;;
  ret 0.

(** The text written to the file during a run. *)
Definition written (t : list event) : pystr :=
  flat_map (fun ev => match ev with WriteFile data => data | _ => [] end) t.

Definition is_file_event (ev : event) : bool :=
  match ev with
  | OpenFile _ _ _ _ | WriteFile _ | CloseFile => true
  | _ => false
  end.

(** ** Sample documents *)

(** A cell [<tag>s</tag>]; an empty cell has no string below it. *)
Definition cell (tag : pystr) (s : pystr) : PageElement :=
  Tag tag (if truthy s then [NavigableString s] else []).

Definition row (tag : pystr) (cells : list pystr) : PageElement :=
  Tag (str "tr") (map (cell tag) cells).

Definition document (tables : list PageElement) : PageElement :=
  Tag (str "[document]") [Tag (str "html") [Tag (str "body") tables]].

(** The table of the frequency list: header Rank, Simplified, Pinyin, a row
    with U+7684 in the column and a row with nothing in it. *)
Definition sample_table : PageElement :=
  Tag (str "table")
      [row (str "th") [str "Rank"; SIMPLIFIED; str "Pinyin"];
       row (str "td") [str "1"; [30340]; str "de"];
       row (str "td") [str "2"; []; str "le"]].

(** A table with the header and no value under it. *)
Definition hollow_table : PageElement :=
  Tag (str "table")
      [row (str "th") [SIMPLIFIED];
       row (str "td") [str " "]].

(** A table without the header. *)
Definition other_table : PageElement :=
  Tag (str "table")
      [row (str "th") [str "Rank"];
       row (str "td") [str "1"]].

(** A header row with the label in two columns. *)
Definition twice_row : PageElement :=
  row (str "th") [SIMPLIFIED; str "Pinyin"; SIMPLIFIED].

Definition sample_html : pystr := Eval cbv in str "<html>...</html>".

(** Parsers that return a fixed tree, used as sample instances. *)
Definition parse_sample (html : pystr) : PageElement :=
  document [other_table; hollow_table; sample_table].

Definition parse_hollow (html : pystr) : PageElement :=
  document [other_table; hollow_table].

(** How many header labels of a row are "Simplified". *)
Definition count_simplified (tr : PageElement) : nat :=
  List.length (filter (pystr_eqb SIMPLIFIED) (header_labels tr)).

(** ** The file name, stated on the segments of the URL *)

(** The segments of the URL once its trailing slashes are stripped. *)
Definition url_segments (url : pystr) : list pystr :=
  split SLASH (rstrip (str "/") url).

(** The last segment that is not empty, when there is one. *)
Definition last_nonempty_segment (url : pystr) : option pystr :=
  find truthy (rev (url_segments url)).

Definition FOO_URL : pystr := Eval cbv in str "https://example.org/wiki/Foo_list/".

(** ** The text of the output file *)

(** What lines 91 to 94 write: the header record unless it is suppressed,
    then one record for each value. *)
Definition csv_output (no_header : bool) (simplified : list pystr) : pystr :=
  (if negb no_header then writerow [SIMPLIFIED] else [])
  ++ flat_map (fun item => writerow [item]) simplified.

(** ** A sample world *)

(** The command line is [seen]; [requests] is not installed, the page comes
    through [urlopen] with a stray byte in it, and every file operation
    succeeds. *)
Definition sample_world (seen : list option_seen) : World :=
  mkWorld (Done [str "home"; str "user"])
          (Options seen)
          (fun _ => Done [str "out"])
          (fun _ => Done tt)
          (Failed (str "ModuleNotFoundError"))
          (fun _ => Failed (str "unreachable"))
          (fun _ => Done [60; 255; 62])
          (Some parse_sample)
          (fun _ => Done tt)
          (fun _ _ => Done tt).

(** The same world with [requests] installed and answering with [status]. *)
Definition requests_world (status : N) : World :=
  mkWorld (Done [str "home"; str "user"])
          (Options [SeenUrl FOO_URL])
          (fun _ => Done [str "out"])
          (fun _ => Done tt)
          (Done tt)
          (fun _ => Done (mkResponse status sample_html))
          (fun _ => Failed (str "URLError"))
          (Some parse_sample)
          (fun _ => Done tt)
          (fun _ _ => Done tt).

(** The exceptions that the naming step, the fetch and the extraction raise. *)
Definition is_naming_error (e : exn) : bool :=
  match e with
  | RuntimeError msg => pystr_eqb msg MSG_NO_NAME
  | _ => false
  end.

Definition is_fetch_error (e : exn) : bool :=
  match e with
  | LibraryError FromUrlopen _ => true
  | _ => false
  end.

Definition is_extraction_error (e : exn) : bool :=
  match e with
  | RuntimeError msg => pystr_eqb msg MSG_NO_TABLE || pystr_eqb msg MSG_MISSING_BS4
  | _ => false
  end.

(** The sample world with a page whose tables yield nothing. *)
Definition hollow_world : World :=
  mkWorld (Done [str "home"; str "user"])
          (Options [SeenUrl FOO_URL; SeenDir (str "/tmp/out")])
          (fun _ => Done [str "tmp"; str "out"])
          (fun _ => Done tt)
          (Failed (str "ModuleNotFoundError"))
          (fun _ => Failed (str "unreachable"))
          (fun _ => Done [60; 62])
          (Some parse_hollow)
          (fun _ => Done tt)
          (fun _ _ => Done tt).

Definition is_fetch_event (ev : event) : bool :=
  match ev with
  | ImportRequests | RequestsGet _ | Urlopen _ => true
  | _ => false
  end.

Definition fails_before_writing (e : exn) : bool :=
  is_naming_error e || is_fetch_error e || is_extraction_error e.

(** ** Trimmed strings *)

(** The first character, when there is one, is not white space. *)
Definition head_kept (s : pystr) : Prop :=
  match s with
  | [] => True
  | c :: _ => isspace c = false
  end.

(** Neither the first nor the last character is white space. *)
Definition trimmed (s : pystr) : Prop := head_kept s /\ head_kept (rev s).

(** The sample table inside a cell of a layout table. *)
Definition layout_table : PageElement :=
  Tag (str "table") [Tag (str "tr") [Tag (str "td") [sample_table]]].

(** A Unicode scalar value: a code point up to U+10FFFF that is not a
    surrogate. *)
Definition is_scalar (c : char) : bool :=
  (c <? 55296) || ((57343 <? c) && (c <=? 1114111)).

(** ** The script *)

(** How the process ends: the effects performed, the exception reported on
    standard error as [Error: ...], if any, and the exit status. *)
Record Ending := mkEnding {
  effects : list event;
  reported : option exn;
  exit_status : N
}.

(** Lines 100 to 105: the status is the value of [main]; an [Exception] is
    reported and gives status 1; a [SystemExit] raised inside [main] is not
    caught and keeps its status. *)
Definition script (w : World) : Ending :=
  match main w with
  | (t, Ok code) => mkEnding t None code
  | (t, Raise (SystemExit code)) => mkEnding t None code
  | (t, Raise e) => mkEnding t (Some e) 1
  end.

(** The sample world without BeautifulSoup. *)
Definition no_bs4_world : World :=
  mkWorld (Done [str "home"; str "user"])
          (Options [SeenUrl FOO_URL])
          (fun _ => Done [str "out"])
          (fun _ => Done tt)
          (Failed (str "ModuleNotFoundError"))
          (fun _ => Failed (str "unreachable"))
          (fun _ => Done [60; 62])
          None
          (fun _ => Done tt)
          (fun _ _ => Done tt).

(** ** The command line, stated on the values given *)

(** The values given with [--url], in order. *)
Definition url_values (seen : list option_seen) : list pystr :=
  flat_map (fun o => match o with SeenUrl v => [v] | _ => [] end) seen.

(** The values given with [--dir], in order. *)
Definition dir_values (seen : list option_seen) : list pystr :=
  flat_map (fun o => match o with SeenDir v => [v] | _ => [] end) seen.

(* ================================================================== *)
(** * Properties *)

Arguments str : simpl never.
Arguments find_all : simpl never.
Arguments get_text : simpl never.
Arguments row_counts : simpl never.
Arguments cell_text : simpl never.
Arguments char_eqb : simpl never.

(** ** Lists and strings *)

Lemma pystr_eqb_eq (a b : pystr) : pystr_eqb a b = true <-> a = b.
Proof.
  revert b; induction a as [|x a IH]; intros [|y b]; simpl; split;
    try congruence; try reflexivity.
  - intros H. apply andb_true_iff in H as [Hx Hab].
    apply N.eqb_eq in Hx. apply IH in Hab. congruence.
  - intros [= -> ->]. apply andb_true_iff. split.
    + apply N.eqb_refl.
    + now apply IH.
Qed.

Lemma pystr_eqb_refl (a : pystr) : pystr_eqb a a = true.
Proof. now apply pystr_eqb_eq. Qed.

Lemma pystr_eqb_neq (a b : pystr) : pystr_eqb a b = false <-> a <> b.
Proof.
  split.
  - intros H E. apply pystr_eqb_eq in E. congruence.
  - intros H. destruct (pystr_eqb a b) eqn:E; [|reflexivity].
    apply pystr_eqb_eq in E. contradiction.
Qed.

Lemma truthy_true {A} (xs : list A) : truthy xs = true <-> xs <> [].
Proof. destruct xs; simpl; split; congruence. Qed.

Lemma truthy_false {A} (xs : list A) : truthy xs = false <-> xs = [].
Proof. destruct xs; simpl; split; congruence. Qed.

Lemma list_contains_In (x : pystr) (xs : list pystr) :
  list_contains x xs = true <-> In x xs.
Proof.
  unfold list_contains. rewrite existsb_exists. split.
  - intros (y & Hy & E). apply pystr_eqb_eq in E. now subst.
  - intros H. exists x. split; [assumption | apply pystr_eqb_refl].
Qed.

Lemma list_contains_cons (x y : pystr) (ys : list pystr) :
  list_contains x (y :: ys) = pystr_eqb y x || list_contains x ys.
Proof.
  unfold list_contains; simpl. f_equal.
  destruct (pystr_eqb x y) eqn:E.
  - apply pystr_eqb_eq in E. subst. symmetry. apply pystr_eqb_refl.
  - symmetry. apply pystr_eqb_neq. apply pystr_eqb_neq in E. congruence.
Qed.

(** [xs.index(x)] returns the first position of [x], and raises without one. *)
Lemma list_index_position (x : pystr) (xs : list pystr) :
  list_index x xs =
  match position x xs with Some i => Ok i | None => Raise ValueError end.
Proof.
  induction xs as [|y ys IH]; simpl; [reflexivity|].
  destruct (pystr_eqb y x); [reflexivity|].
  rewrite IH. now destruct (position x ys).
Qed.

Lemma position_contains (x : pystr) (xs : list pystr) :
  list_contains x xs = true -> exists i, position x xs = Some i.
Proof.
  induction xs as [|y ys IH]; [discriminate|].
  rewrite list_contains_cons. simpl.
  destruct (pystr_eqb y x); simpl; intros H.
  - now exists 0%nat.
  - destruct (IH H) as [i ->]. now exists (S i).
Qed.

Lemma position_spec (x : pystr) (xs : list pystr) (i : nat) :
  position x xs = Some i <->
  nth_error xs i = Some x /\ forall j, (j < i)%nat -> nth_error xs j <> Some x.
Proof.
  revert i; induction xs as [|y ys IH]; intros i; simpl.
  - split; [discriminate|]. intros [H _]. now destruct i.
  - destruct (pystr_eqb y x) eqn:E.
    + apply pystr_eqb_eq in E. subst y. split.
      * intros [= <-]. split; [reflexivity | intros j Hj; lia].
      * intros [_ H]. destruct i as [|i]; [reflexivity|].
        exfalso. apply (H 0%nat); [lia | reflexivity].
    + apply pystr_eqb_neq in E. split.
      * destruct (position x ys) as [k|] eqn:P; [|discriminate].
        intros [= <-]. destruct (proj1 (IH k) eq_refl) as [P1 P2].
        split; [exact P1|].
        intros [|j] Hj; simpl; [congruence | apply P2; lia].
      * intros [H1 H2]. destruct i as [|i]; simpl in H1; [congruence|].
        assert (P : position x ys = Some i).
        { apply IH. split; [exact H1|].
          intros j Hj. apply (H2 (S j)). lia. }
        now rewrite P.
Qed.

Lemma position_none (x : pystr) (xs : list pystr) :
  position x xs = None <-> ~ In x xs.
Proof.
  induction xs as [|y ys IH]; simpl.
  - split; [intros _ [] | reflexivity].
  - destruct (pystr_eqb y x) eqn:E.
    + apply pystr_eqb_eq in E. split; [discriminate | intros H; exfalso; auto].
    + apply pystr_eqb_neq in E.
      destruct (position x ys); simpl.
      * split; [discriminate|]. intros H. exfalso.
        assert (N : ~ In x ys) by tauto. apply IH in N. discriminate.
      * split; [|reflexivity]. intros _ [H|H]; [congruence|].
        now apply (proj1 IH).
Qed.

(** [find] cuts the list at the first element that passes. *)
Lemma find_first {A} (p : A -> bool) (l : list A) (x : A) :
  find p l = Some x <->
  exists pre post, l = pre ++ x :: post /\ p x = true /\
                   forall y, In y pre -> p y = false.
Proof.
  induction l as [|a l IH]; simpl.
  - split; [discriminate|]. intros (pre & post & E & _). now destruct pre.
  - destruct (p a) eqn:Pa.
    + split.
      * intros [= ->]. exists [], l. repeat split; auto. intros y [].
      * intros (pre & post & E & Px & Hpre).
        destruct pre as [|b pre]; simpl in E; inversion E; subst; [reflexivity|].
        rewrite (Hpre b (or_introl eq_refl)) in Pa. discriminate.
    + rewrite IH. split.
      * intros (pre & post & -> & Px & Hpre).
        exists (a :: pre), post. repeat split; auto.
        intros y [<-|Hy]; auto.
      * intros (pre & post & E & Px & Hpre).
        destruct pre as [|b pre]; simpl in E; inversion E; subst.
        -- congruence.
        -- exists pre, post. repeat split; auto.
           intros y Hy. apply Hpre. now right.
Qed.

Lemma find_nothing {A} (p : A -> bool) (l : list A) :
  find p l = None <-> forall y, In y l -> p y = false.
Proof.
  induction l as [|a l IH]; simpl.
  - split; [intros _ y [] | reflexivity].
  - destruct (p a) eqn:Pa.
    + split; [discriminate|]. intros H.
      rewrite (H a (or_introl eq_refl)) in Pa. discriminate.
    + rewrite IH. split.
      * intros H y [<-|Hy]; auto.
      * intros H y Hy. apply H. now right.
Qed.

(** ** The loops of extract_simplified *)

(** The first row with a "Simplified" label decides the header loop. *)
Lemma header_loop_find (trs : list PageElement) :
  header_loop trs =
  Ok (match find (fun tr => list_contains SIMPLIFIED (header_labels tr)) trs with
      | Some tr => position SIMPLIFIED (header_labels tr)
      | None => None
      end).
Proof.
  induction trs as [|tr rest IH]; simpl; [reflexivity|].
  unfold header_labels at 1.
  destruct (find_all (str "th") tr) as [|th ths] eqn:Ths; simpl truthy; cbv iota.
  - simpl. exact IH.
  - simpl negb. cbv iota.
    destruct (list_contains SIMPLIFIED (map (get_text (str " ")) (th :: ths))) eqn:C.
    + rewrite list_index_position.
      unfold header_labels. rewrite Ths.
      destruct (position_contains _ _ C) as [i ->]. reflexivity.
    + exact IH.
Qed.

Lemma header_loop_table (table : PageElement) :
  header_loop (find_all (str "tr") table) = Ok (simplified_column table).
Proof. apply header_loop_find. Qed.

(** The data loop appends, in row order, the text of each row that counts. *)
Lemma data_loop_filter (idx : nat) (trs : list PageElement) (acc : list pystr) :
  data_loop idx trs acc =
  Ok (acc ++ map (cell_text idx) (filter (row_counts idx) trs)).
Proof.
  revert acc; induction trs as [|tr rest IH]; intros acc; simpl.
  - now rewrite app_nil_r.
  - destruct (find_all (str "td") tr) as [|td tds] eqn:Tds.
    + assert (R : row_counts idx tr = false)
        by (unfold row_counts; rewrite Tds; now destruct idx).
      rewrite R. simpl. apply IH.
    + simpl truthy. simpl negb. rewrite orb_false_l.
      destruct (List.length (td :: tds) <=? idx)%nat eqn:L.
      * assert (R : row_counts idx tr = false).
        { unfold row_counts. rewrite Tds. apply andb_false_iff. left.
          apply Nat.ltb_ge. now apply Nat.leb_le. }
        rewrite R. apply IH.
      * apply Nat.leb_gt in L. unfold getitem.
        destruct (nth_error (td :: tds) idx) as [cell|] eqn:Nth.
        2:{ apply nth_error_None in Nth. lia. }
        simpl bind.
        assert (CT : cell_text idx tr = get_text [] cell)
          by (unfold cell_text; now rewrite Tds, Nth).
        assert (R : row_counts idx tr = truthy (get_text [] cell)).
        { unfold row_counts. rewrite Tds, CT.
          now rewrite (proj2 (Nat.ltb_lt _ _) L). }
        rewrite R. destruct (truthy (get_text [] cell)).
        -- rewrite IH. simpl map. now rewrite CT, <- app_assoc.
        -- apply IH.
Qed.

Lemma data_loop_table (idx : nat) (table : PageElement) :
  data_loop idx (find_all (str "tr") table) [] = Ok (column_values idx table).
Proof. now rewrite data_loop_filter. Qed.

(** The table loop returns the values of the first table that qualifies. *)
Lemma table_loop_find (tables : list PageElement) :
  table_loop tables =
  match find qualifies tables with
  | Some table =>
      match simplified_column table with
      | Some idx => Ok (column_values idx table)
      | None => Raise (RuntimeError MSG_NO_TABLE)
      end
  | None => Raise (RuntimeError MSG_NO_TABLE)
  end.
Proof.
  induction tables as [|table rest IH]; simpl; [reflexivity|].
  rewrite header_loop_table. simpl bind. unfold qualifies at 1.
  destruct (simplified_column table) as [idx|] eqn:Col; [|exact IH].
  rewrite data_loop_table. simpl bind.
  destruct (truthy (column_values idx table)) eqn:T; [|exact IH].
  now rewrite Col.
Qed.

Lemma column_values_nil (idx : nat) (table : PageElement) :
  column_values idx table = [] <-> counting_rows idx table = [].
Proof.
  unfold column_values. split.
  - intros H. now apply map_eq_nil in H.
  - intros ->. reflexivity.
Qed.

Lemma qualifies_spec (table : PageElement) :
  qualifies table = true <->
  exists idx, simplified_column table = Some idx /\ counting_rows idx table <> [].
Proof.
  unfold qualifies. destruct (simplified_column table) as [idx|].
  - rewrite truthy_true, column_values_nil. split.
    + intros H. now exists idx.
    + now intros (i & [= <-] & H).
  - split; [discriminate | now intros (i & [=] & _)].
Qed.

Lemma qualifies_false (table : PageElement) :
  qualifies table = false <->
  simplified_column table = None \/
  exists idx, simplified_column table = Some idx /\ column_values idx table = [].
Proof.
  unfold qualifies. destruct (simplified_column table) as [idx|].
  - rewrite truthy_false. split.
    + intros H. right. now exists idx.
    + intros [[=]|(i & [= <-] & H)]. exact H.
  - split; [now left | reflexivity].
Qed.

Lemma counting_rows_spec (idx : nat) (table tr : PageElement) :
  In tr (counting_rows idx table) <->
  In tr (table_rows table) /\
  (idx < List.length (find_all (str "td") tr))%nat /\ cell_text idx tr <> [].
Proof.
  unfold counting_rows. rewrite filter_In. unfold row_counts.
  rewrite andb_true_iff, Nat.ltb_lt, truthy_true. tauto.
Qed.

(** ** extract_simplified *)

Lemma extract_simplified_find (parse : pystr -> PageElement) (html : pystr) :
  extract_simplified (Some parse) html =
  match find qualifies (find_all (str "table") (parse html)) with
  | Some table =>
      match simplified_column table with
      | Some idx => Ok (column_values idx table)
      | None => Raise (RuntimeError MSG_NO_TABLE)
      end
  | None => Raise (RuntimeError MSG_NO_TABLE)
  end.
Proof. unfold extract_simplified. apply table_loop_find. Qed.

Lemma extract_simplified_raises
      (BeautifulSoup : option (pystr -> PageElement)) (html : pystr) (e : exn) :
  extract_simplified BeautifulSoup html = Raise e ->
  e = RuntimeError MSG_NO_TABLE \/ e = RuntimeError MSG_MISSING_BS4.
Proof.
  destruct BeautifulSoup as [parse|].
  - rewrite extract_simplified_find.
    destruct (find qualifies (find_all (str "table") (parse html)))
      as [table|]; [|left; congruence].
    destruct (simplified_column table); [discriminate | left; congruence].
  - intros [= <-]. now right.
Qed.

(** C1. When the document has a table with a "Simplified" header and a row
    with text in that column, [extract_simplified] returns the column of the
    first such table: the cell texts of its rows that have a data cell at the
    column index with non-empty text, in row order, as many values as there
    are such rows; rows with too few data cells or an empty text are left
    out. *)
Theorem extract_simplified_column_values
        (parse : pystr -> PageElement) (html : pystr) :
  (exists table idx,
      In table (find_all (str "table") (parse html)) /\
      simplified_column table = Some idx /\
      counting_rows idx table <> []) ->
  exists table idx pre post,
    find_all (str "table") (parse html) = pre ++ table :: post /\
    (forall t, In t pre -> qualifies t = false) /\
    simplified_column table = Some idx /\
    counting_rows idx table <> [] /\
    extract_simplified (Some parse) html
    = Ok (map (cell_text idx) (counting_rows idx table)) /\
    (forall values,
        extract_simplified (Some parse) html = Ok values ->
        List.length values = List.length (counting_rows idx table)) /\
    (forall tr,
        In tr (counting_rows idx table) <->
        In tr (table_rows table) /\
        (idx < List.length (find_all (str "td") tr))%nat /\
        cell_text idx tr <> []).
Proof.
  intros (t0 & i0 & Hin & Hcol & Hrows).
  assert (Q0 : qualifies t0 = true) by (apply qualifies_spec; eauto).
  destruct (find qualifies (find_all (str "table") (parse html)))
    as [table|] eqn:F.
  2:{ rewrite find_nothing in F. rewrite (F t0 Hin) in Q0. discriminate. }
  pose proof F as F'.
  apply find_first in F' as (pre & post & E & Q & Hpre).
  apply qualifies_spec in Q as (idx & Col & Rows).
  assert (X : extract_simplified (Some parse) html
              = Ok (map (cell_text idx) (counting_rows idx table))).
  { rewrite extract_simplified_find, F, Col. reflexivity. }
  exists table, idx, pre, post.
  split; [exact E|]. split; [exact Hpre|]. split; [exact Col|].
  split; [exact Rows|]. split; [exact X|]. split.
  - intros values Hv. rewrite X in Hv. injection Hv as <-.
    apply length_map.
  - intros tr. apply counting_rows_spec.
Qed.

Lemma extract_simplified_column_values_witness :
  exists table idx pre post,
    find_all (str "table") (parse_sample sample_html) = pre ++ table :: post /\
    (forall t, In t pre -> qualifies t = false) /\
    simplified_column table = Some idx /\
    counting_rows idx table <> [] /\
    extract_simplified (Some parse_sample) sample_html
    = Ok (map (cell_text idx) (counting_rows idx table)) /\
    (forall values,
        extract_simplified (Some parse_sample) sample_html = Ok values ->
        List.length values = List.length (counting_rows idx table)) /\
    (forall tr,
        In tr (counting_rows idx table) <->
        In tr (table_rows table) /\
        (idx < List.length (find_all (str "td") tr))%nat /\
        cell_text idx tr <> []).
Proof.
  apply (extract_simplified_column_values parse_sample sample_html).
  exists sample_table, 1%nat. split; [|split].
  - vm_compute. right. right. left. reflexivity.
  - reflexivity.
  - vm_compute. discriminate.
Defined.

(** C2. [extract_simplified] returns the values of the first table, in
    document order, that has the header and yields a value; it raises the
    "no table" error exactly when every table lacks the header or yields no
    value, and raises nothing else. *)
Theorem extract_simplified_first_table
        (parse : pystr -> PageElement) (html : pystr) :
  let tables := find_all (str "table") (parse html) in
  (forall pre table post idx,
      tables = pre ++ table :: post ->
      (forall t, In t pre -> qualifies t = false) ->
      simplified_column table = Some idx ->
      column_values idx table <> [] ->
      extract_simplified (Some parse) html = Ok (column_values idx table)) /\
  (extract_simplified (Some parse) html = Raise (RuntimeError MSG_NO_TABLE) <->
   forall t, In t tables ->
             simplified_column t = None \/
             exists idx, simplified_column t = Some idx /\
                         column_values idx t = []) /\
  (forall e, extract_simplified (Some parse) html = Raise e ->
             e = RuntimeError MSG_NO_TABLE).
Proof.
  intros tables. rewrite extract_simplified_find. fold tables.
  split; [|split].
  - intros pre table post idx E Hpre Col Vals.
    assert (F : find qualifies tables = Some table).
    { apply find_first. exists pre, post. repeat split; auto.
      apply qualifies_spec. exists idx. split; [exact Col|].
      now rewrite <- column_values_nil. }
    now rewrite F, Col.
  - destruct (find qualifies tables) as [table|] eqn:F.
    + pose proof F as F'.
      apply find_first in F' as (pre & post & E & Q & _).
      pose proof Q as Q'. apply qualifies_spec in Q' as (idx & Col & Rows).
      rewrite Col. split; [discriminate|].
      intros H. exfalso.
      assert (Hin : In table tables) by (rewrite E; apply in_elt).
      apply H in Hin. apply qualifies_false in Hin. congruence.
    + split; [|reflexivity]. intros _ t Hin.
      apply qualifies_false. rewrite find_nothing in F. now apply F.
  - intros e. destruct (find qualifies tables) as [table|]; [|congruence].
    destruct (simplified_column table); congruence.
Qed.

Lemma extract_simplified_first_table_witness :
  extract_simplified (Some parse_sample) sample_html
  = Ok (column_values 1 sample_table) /\
  extract_simplified (Some parse_hollow) sample_html
  = Raise (RuntimeError MSG_NO_TABLE).
Proof.
  split.
  - apply (proj1 (extract_simplified_first_table parse_sample sample_html)
                 [other_table; hollow_table] sample_table [] 1%nat).
    + reflexivity.
    + intros t [<-|[<-|[]]]; reflexivity.
    + reflexivity.
    + vm_compute. discriminate.
  - apply (proj1 (proj2 (extract_simplified_first_table parse_hollow sample_html))).
    intros t [<-|[<-|[]]].
    + left. reflexivity.
    + right. exists 0%nat. split; reflexivity.
Defined.

(** C9. A list returned by [extract_simplified] is not empty and holds no
    empty string. *)
Theorem extract_simplified_nonempty
        (BeautifulSoup : option (pystr -> PageElement)) (html : pystr)
        (values : list pystr) :
  extract_simplified BeautifulSoup html = Ok values ->
  values <> [] /\ Forall (fun v => v <> []) values.
Proof.
  destruct BeautifulSoup as [parse|]; [|discriminate].
  rewrite extract_simplified_find.
  destruct (find qualifies (find_all (str "table") (parse html)))
    as [table|] eqn:F; [|discriminate].
  apply find_first in F as (_ & _ & _ & Q & _).
  apply qualifies_spec in Q as (idx & Col & Rows).
  rewrite Col. intros [= <-]. split.
  - now rewrite column_values_nil.
  - unfold column_values. apply Forall_forall. intros v Hv.
    apply in_map_iff in Hv as (tr & <- & Htr).
    now apply counting_rows_spec in Htr.
Qed.

Lemma extract_simplified_nonempty_witness :
  [[30340]] <> [] /\ Forall (fun v : pystr => v <> []) [[30340]].
Proof.
  apply (extract_simplified_nonempty (Some parse_sample) sample_html).
  vm_compute. reflexivity.
Defined.

(** The sample document yields the one value of its third table. *)
Example extract_simplified_sample :
  extract_simplified (Some parse_sample) sample_html = Ok [[30340]].
Proof. reflexivity. Qed.

(** ** The header loop *)

(** C4, as stated, fails: a header row with the label in two columns still
    records an index, so the index is not recorded only when exactly one
    label matches. *)
Lemma header_loop_label_twice :
  header_loop [twice_row] = Ok (Some 0%nat) /\
  count_simplified twice_row = 2%nat /\
  ~ (forall trs idx,
        header_loop trs = Ok (Some idx) ->
        exists tr, In tr trs /\ count_simplified tr = 1%nat).
Proof.
  split; [reflexivity|]. split; [reflexivity|].
  intros H. destruct (H [twice_row] 0%nat eq_refl) as (tr & [<-|[]] & C).
  vm_compute in C. discriminate.
Qed.

(** C4, amended. The header loop records an index exactly when some row has
    a header label equal to "Simplified": it stops at the first such row and
    records the zero-based position of the first such label among the header
    cells of that row. Without such a row it records nothing, and it never
    raises. *)
Theorem header_loop_first_label (trs : list PageElement) :
  (forall idx,
      header_loop trs = Ok (Some idx) <->
      exists pre tr post,
        trs = pre ++ tr :: post /\
        (forall r, In r pre -> ~ In SIMPLIFIED (header_labels r)) /\
        nth_error (header_labels tr) idx = Some SIMPLIFIED /\
        (forall j, (j < idx)%nat ->
                   nth_error (header_labels tr) j <> Some SIMPLIFIED)) /\
  (header_loop trs = Ok None <->
   forall r, In r trs -> ~ In SIMPLIFIED (header_labels r)) /\
  (forall e, header_loop trs <> Raise e).
Proof.
  rewrite header_loop_find.
  set (p := fun tr => list_contains SIMPLIFIED (header_labels tr)).
  assert (Pfalse : forall r, p r = false <-> ~ In SIMPLIFIED (header_labels r)).
  { intros r. unfold p. rewrite <- list_contains_In.
    destruct (list_contains SIMPLIFIED (header_labels r)); split;
      congruence. }
  split; [|split].
  - intros idx. split.
    + destruct (find p trs) as [tr|] eqn:F; [|discriminate].
      intros [= Pos]. apply find_first in F as (pre & post & E & _ & Hpre).
      apply position_spec in Pos as [P1 P2].
      exists pre, tr, post. repeat split; auto.
      intros r Hr. apply Pfalse. now apply Hpre.
    + intros (pre & tr & post & E & Hpre & P1 & P2).
      assert (F : find p trs = Some tr).
      { apply find_first. exists pre, post. repeat split; auto.
        - unfold p. apply list_contains_In. eapply nth_error_In. exact P1.
        - intros y Hy. apply Pfalse. now apply Hpre. }
      rewrite F. f_equal. apply position_spec. now split.
  - destruct (find p trs) as [tr|] eqn:F.
    + pose proof F as F'. apply find_first in F' as (pre & post & E & Ptr & _).
      destruct (position_contains _ _ Ptr) as [i Pos]. rewrite Pos.
      split; [discriminate|]. intros H. exfalso.
      apply (H tr); [rewrite E; apply in_elt|].
      unfold p in Ptr. now apply list_contains_In.
    + split; [|reflexivity]. intros _ r Hr. apply Pfalse.
      rewrite find_nothing in F. now apply F.
  - intros e. discriminate.
Qed.

Lemma header_loop_first_label_witness :
  header_loop [row (str "td") [str "1"]; twice_row] = Ok (Some 0%nat).
Proof.
  apply (proj1 (header_loop_first_label [row (str "td") [str "1"]; twice_row])).
  exists [row (str "td") [str "1"]], twice_row, [].
  split; [reflexivity|]. split; [|split].
  - intros r [<-|[]]. vm_compute. tauto.
  - reflexivity.
  - intros j Hj. lia.
Defined.

(** ** The output file name *)

Lemma split_nonempty (sep : char) (s : pystr) : split sep s <> [].
Proof.
  destruct s as [|c s]; simpl; [discriminate|].
  destruct (char_eqb c sep); [discriminate|].
  destruct (split sep s); discriminate.
Qed.

(** Appending a character other than the separator extends the last segment. *)
Lemma split_snoc (sep c : char) (s : pystr) :
  char_eqb c sep = false ->
  split sep (s ++ [c]) =
  removelast (split sep s) ++ [last (split sep s) [] ++ [c]].
Proof.
  intros Hc. induction s as [|a s IH].
  - simpl. now rewrite Hc.
  - change ((a :: s) ++ [c]) with (a :: (s ++ [c])).
    cbn [split]. rewrite IH.
    pose proof (split_nonempty sep s) as NE.
    destruct (split sep s) as [|seg segs]; [contradiction|].
    destruct (char_eqb a sep).
    + reflexivity.
    + destruct segs as [|s1 segs']; reflexivity.
Qed.

Lemma lstrip_by_head (p : char -> bool) (s : pystr) :
  match lstrip_by p s with
  | [] => forallb p s = true
  | c :: _ => p c = false /\ forallb p s = false
  end.
Proof.
  induction s as [|c s IH]; simpl; [reflexivity|].
  destruct (p c) eqn:Pc; simpl.
  - exact IH.
  - now split.
Qed.

Lemma forallb_rev {A} (p : A -> bool) (l : list A) :
  forallb p (rev l) = forallb p l.
Proof.
  induction l as [|a l IH]; simpl; [reflexivity|].
  rewrite forallb_app, IH. simpl. rewrite andb_true_r. apply andb_comm.
Qed.

(** A string stripped on the right is empty, exactly when every character
    was stripped, or ends with a character that is kept. *)
Lemma rstrip_by_last (p : char -> bool) (s : pystr) :
  (rstrip_by p s = [] /\ forallb p s = true) \/
  (exists s0 c, rstrip_by p s = s0 ++ [c] /\ p c = false /\ forallb p s = false).
Proof.
  unfold rstrip_by. pose proof (lstrip_by_head p (rev s)) as H.
  rewrite forallb_rev in H.
  destruct (lstrip_by p (rev s)) as [|c t].
  - left. now split.
  - right. exists (rev t), c. simpl. tauto.
Qed.

Lemma last_item_snoc {A} (xs : list A) (x : A) : last_item (xs ++ [x]) = Ok x.
Proof. unfold last_item. now rewrite rev_app_distr. Qed.

Lemma slash_chars (c : char) :
  existsb (char_eqb c) (str "/") = char_eqb c SLASH.
Proof. cbn. apply orb_false_r. Qed.

(** The two ways [derive_base] ends. *)
Lemma derive_base_cases (url : pystr) :
  (derive_base url = Raise (RuntimeError MSG_NO_NAME) /\
   last_nonempty_segment url = None /\
   forallb (char_eqb SLASH) url = true) \/
  (exists base, derive_base url = Ok base /\
                last_nonempty_segment url = Some base /\
                forallb (char_eqb SLASH) url = false).
Proof.
  assert (Hall : forallb (fun c => existsb (char_eqb c) (str "/")) url
                 = forallb (char_eqb SLASH) url).
  { induction url as [|c u IH]; cbn [forallb]; [reflexivity|].
    rewrite IH, slash_chars. f_equal. apply N.eqb_sym. }
  unfold derive_base, last_nonempty_segment, url_segments, rstrip.
  destruct (rstrip_by_last (fun c => existsb (char_eqb c) (str "/")) url)
    as [[-> All]|(s0 & c & -> & Pc & All)]; rewrite Hall in All.
  - left. repeat split; auto.
  - right. rewrite slash_chars in Pc.
    rewrite (split_snoc _ _ _ Pc).
    exists (last (split SLASH s0) [] ++ [c]).
    rewrite last_item_snoc, rev_app_distr. simpl.
    destruct (last (split SLASH s0) [] ++ [c]) eqn:E.
    + now apply app_eq_nil in E as [_ E].
    + repeat split; auto.
Qed.

Lemma derive_base_raises (url : pystr) (e : exn) :
  derive_base url = Raise e -> e = RuntimeError MSG_NO_NAME.
Proof.
  destruct (derive_base_cases url) as [(-> & _)|(base & -> & _)]; congruence.
Qed.

(** C5. The base name is the last non-empty segment of the URL stripped of
    its trailing slashes and split on the slash; deriving it fails, with the
    naming error, exactly when there is no such segment, which is when the
    URL is empty or made of slashes only. The URL of the example gives
    Foo_list and the file name Foo_list.csv. *)
Theorem derive_base_last_segment (url : pystr) :
  derive_base url =
  match last_nonempty_segment url with
  | Some base => Ok base
  | None => Raise (RuntimeError MSG_NO_NAME)
  end /\
  (derive_base url = Raise (RuntimeError MSG_NO_NAME) <->
   last_nonempty_segment url = None) /\
  (last_nonempty_segment url = None <-> forallb (char_eqb SLASH) url = true) /\
  (forall e, derive_base url = Raise e -> e = RuntimeError MSG_NO_NAME) /\
  derive_base FOO_URL = Ok (str "Foo_list") /\
  csv_name (str "Foo_list") = str "Foo_list.csv".
Proof.
  pose proof (derive_base_cases url) as Main.
  split; [|split; [|split; [|split; [|split]]]].
  - destruct Main as [(-> & -> & _)|(base & -> & -> & _)]; reflexivity.
  - destruct Main as [(-> & -> & _)|(base & -> & -> & _)]; split;
      congruence.
  - destruct Main as [(_ & -> & ->)|(base & _ & -> & ->)]; split;
      congruence.
  - intros e. apply derive_base_raises.
  - reflexivity.
  - reflexivity.
Qed.

Lemma derive_base_last_segment_witness :
  derive_base [SLASH; SLASH] = Raise (RuntimeError MSG_NO_NAME).
Proof.
  apply (proj2 (proj1 (proj2 (derive_base_last_segment [SLASH; SLASH])))).
  reflexivity.
Defined.

(** ** Writing and reading CSV *)

Lemma char_eqb_eq (a b : char) : char_eqb a b = true <-> a = b.
Proof. apply N.eqb_eq. Qed.

Lemma needs_quote_false (c : char) :
  needs_quote c = false ->
  char_eqb c DELIMITER = false /\ char_eqb c QUOTECHAR = false /\
  char_eqb c CR = false /\ char_eqb c LF = false.
Proof.
  unfold needs_quote, LINETERMINATOR. cbn [existsb].
  destruct (char_eqb c DELIMITER), (char_eqb c QUOTECHAR),
    (char_eqb c CR), (char_eqb c LF); simpl; intros H;
    try discriminate; auto.
Qed.

Lemma parse_line_app (r : Reader) (a b : pystr) :
  parse_line r (a ++ b) = (r' <- parse_line r a ;; parse_line r' b)%result.
Proof.
  revert r; induction a as [|c a IH]; intros r; simpl; [reflexivity|].
  destruct (parse_process_char r (Char c)); simpl; [apply IH | reflexivity].
Qed.

(** Characters that are not line ends stay on the current line. *)
Lemma readlines_from_plain (v s cur : pystr) :
  Forall (fun c => needs_quote c = false) v ->
  readlines_from (v ++ s) cur = readlines_from s (cur ++ v).
Proof.
  intros H; revert cur; induction H as [|c v Hc _ IH]; intros cur.
  - now rewrite app_nil_r.
  - apply needs_quote_false in Hc as (_ & _ & Hcr & Hlf).
    cbn [app readlines_from]. rewrite Hlf, Hcr, IH.
    now rewrite <- app_assoc.
Qed.

Lemma readlines_from_crlf (s cur : pystr) :
  readlines_from (CR :: LF :: s) cur = (cur ++ [CR; LF]) :: readlines_from s [].
Proof. reflexivity. Qed.

(** The reader on the characters of a field written without quotes. *)
Lemma parse_line_plain (v f : pystr) (fs : list pystr) :
  Forall (fun c => needs_quote c = false) v ->
  parse_line (mkReader IN_FIELD f fs) v = Ok (mkReader IN_FIELD (f ++ v) fs).
Proof.
  intros H; revert f; induction H as [|c v Hc _ IH]; intros f.
  - now rewrite app_nil_r.
  - apply needs_quote_false in Hc as (Hd & _ & Hcr & Hlf).
    cbn [parse_line]. unfold parse_process_char. cbn [state].
    unfold is_line_end, is_newline, is_char. rewrite Hlf, Hcr, Hd.
    cbn [orb bind]. unfold parse_add_char. cbn [state field fields].
    rewrite IH. now rewrite <- app_assoc.
Qed.

Lemma parse_first_plain (c : char) :
  needs_quote c = false ->
  parse_process_char parse_reset (Char c) = Ok (mkReader IN_FIELD [c] []).
Proof.
  intros Hc. apply needs_quote_false in Hc as (Hd & Hq & Hcr & Hlf).
  unfold parse_process_char, parse_reset. cbn [state].
  unfold is_line_end, is_newline, is_char. rewrite Hlf, Hcr, Hd, Hq.
  reflexivity.
Qed.

(** After a field, the line terminator and the end of the line close the
    record. *)
Lemma read_records_plain (v T : pystr) :
  v <> [] -> Forall (fun c => needs_quote c = false) v ->
  read_records (readlines_from (v ++ LINETERMINATOR ++ T) []) parse_reset =
  (records <- read_records (readlines_from T []) parse_reset ;;
   Ok ([v] :: records))%result.
Proof.
  intros NE H. rewrite (readlines_from_plain _ _ _ H).
  unfold LINETERMINATOR. cbn [app]. rewrite readlines_from_crlf.
  cbn [read_records]. rewrite parse_line_app.
  destruct v as [|c v]; [contradiction|].
  inversion H as [|? ? Hc Hv]; subst.
  cbn [parse_line]. rewrite (parse_first_plain _ Hc). cbn [bind].
  rewrite (parse_line_plain _ _ _ Hv). cbn [bind app].
  reflexivity.
Qed.

Lemma step_quoted_char (c : char) (f : pystr) (fs : list pystr) :
  char_eqb c QUOTECHAR = false ->
  parse_process_char (mkReader IN_QUOTED_FIELD f fs) (Char c)
  = Ok (mkReader IN_QUOTED_FIELD (f ++ [c]) fs).
Proof.
  intros H. unfold parse_process_char. cbn [state]. now rewrite H.
Qed.

Lemma step_quoted_quotes (f : pystr) (fs : list pystr) :
  parse_line (mkReader IN_QUOTED_FIELD f fs) [QUOTECHAR; QUOTECHAR]
  = Ok (mkReader IN_QUOTED_FIELD (f ++ [QUOTECHAR]) fs).
Proof. reflexivity. Qed.

Lemma readlines_from_other (c : char) (s cur : pystr) :
  char_eqb c LF = false -> char_eqb c CR = false ->
  readlines_from (c :: s) cur = readlines_from s (cur ++ [c]).
Proof. intros H1 H2. cbn [readlines_from]. now rewrite H1, H2. Qed.

Lemma readlines_from_lf (s cur : pystr) :
  readlines_from (LF :: s) cur = (cur ++ [LF]) :: readlines_from s [].
Proof. reflexivity. Qed.

Lemma readlines_from_cr (c2 : char) (s cur : pystr) :
  char_eqb c2 LF = false ->
  readlines_from (CR :: c2 :: s) cur
  = (cur ++ [CR]) :: readlines_from (c2 :: s) [].
Proof.
  intros H. cbn [readlines_from].
  change (char_eqb CR LF) with false. change (char_eqb CR CR) with true.
  cbv iota. rewrite H. reflexivity.
Qed.

(** A line that ends inside a quoted field leaves the reader inside it. *)
Lemma read_records_line_in_quotes
      (cur tail : pystr) (r0 : Reader) (f : pystr) (rest : list pystr) :
  parse_line r0 cur = Ok (mkReader IN_QUOTED_FIELD f []) ->
  Forall (fun c => char_eqb c QUOTECHAR = false) tail ->
  read_records ((cur ++ tail) :: rest) r0
  = read_records rest (mkReader IN_QUOTED_FIELD (f ++ tail) []).
Proof.
  intros Hcur Htail. cbn [read_records]. rewrite parse_line_app, Hcur.
  cbn [bind].
  assert (P : forall g, parse_line (mkReader IN_QUOTED_FIELD g []) tail
                        = Ok (mkReader IN_QUOTED_FIELD (g ++ tail) [])).
  { induction Htail as [|c t Hc _ IHt]; intros g.
    - now rewrite app_nil_r.
    - cbn [parse_line]. rewrite (step_quoted_char _ _ _ Hc). cbn [bind].
      rewrite IHt. now rewrite <- app_assoc. }
  rewrite P. reflexivity.
Qed.

(** A reader inside a quoted field, with the part [cur] of the current line
    already taken from the text, reads the rest of the written field up to
    the closing quote and the line terminator as one field. *)
Lemma read_records_quoted (n : nat) :
  forall (v cur : pystr) (r0 : Reader) (f T : pystr),
    (List.length v <= n)%nat ->
    parse_line r0 cur = Ok (mkReader IN_QUOTED_FIELD f []) ->
    read_records
      (readlines_from (copy_field v ++ QUOTECHAR :: CR :: LF :: T) cur) r0 =
    (records <- read_records (readlines_from T []) parse_reset ;;
     Ok ([f ++ v] :: records))%result.
Proof.
  assert (Base : forall cur r0 f T,
    parse_line r0 cur = Ok (mkReader IN_QUOTED_FIELD f []) ->
    read_records
      (readlines_from (copy_field [] ++ QUOTECHAR :: CR :: LF :: T) cur) r0 =
    (records <- read_records (readlines_from T []) parse_reset ;;
     Ok ([f ++ []] :: records))%result).
  { intros cur r0 f T Hcur. cbn [copy_field app].
    rewrite readlines_from_other by reflexivity.
    rewrite readlines_from_crlf. cbn [read_records].
    rewrite parse_line_app, parse_line_app, Hcur. cbn [bind].
    rewrite app_nil_r. reflexivity. }
  induction n as [|n IH]; intros v cur r0 f T Hlen Hcur.
  - destruct v; [|simpl in Hlen; lia]. now apply Base.
  - destruct v as [|c v]; [now apply Base|].
    simpl in Hlen. cbn [copy_field].
    destruct (char_eqb c QUOTECHAR) eqn:Eq.
    + (* a quote, written twice *)
      apply char_eqb_eq in Eq. subst c. cbn [app].
      rewrite !readlines_from_other by reflexivity.
      rewrite (IH v _ r0 (f ++ [QUOTECHAR]) T); [| lia |].
      * now rewrite <- app_assoc.
      * rewrite <- app_assoc. rewrite parse_line_app, Hcur. cbn [bind app].
        apply step_quoted_quotes.
    + cbn [app].
      destruct (char_eqb c LF) eqn:Elf.
      * (* a line feed ends the line inside the field *)
        apply char_eqb_eq in Elf. subst c.
        rewrite readlines_from_lf.
        rewrite (read_records_line_in_quotes _ _ _ _ _ Hcur)
          by (repeat constructor).
        rewrite (IH v [] _ (f ++ [LF]) T); [| lia | reflexivity].
        now rewrite <- app_assoc.
      * destruct (char_eqb c CR) eqn:Ecr.
        -- (* a carriage return, alone or followed by a line feed *)
           apply char_eqb_eq in Ecr. subst c.
           destruct v as [|c2 v].
           ++ cbn [copy_field app].
              rewrite readlines_from_cr by reflexivity.
              rewrite (read_records_line_in_quotes _ _ _ _ _ Hcur)
                by (repeat constructor).
              pose proof (Base [] (mkReader IN_QUOTED_FIELD (f ++ [CR]) [])
                               (f ++ [CR]) T eq_refl) as B.
              cbn [copy_field app] in B. rewrite B. now rewrite app_nil_r.
           ++ destruct (char_eqb c2 LF) eqn:Elf2.
              ** apply char_eqb_eq in Elf2. subst c2.
                 change (copy_field (LF :: v)) with (LF :: copy_field v).
                 cbn [app]. rewrite readlines_from_crlf.
                 rewrite (read_records_line_in_quotes _ _ _ _ _ Hcur)
                   by (repeat constructor).
                 rewrite (IH v [] _ (f ++ [CR; LF]) T);
                   [| simpl in *; lia | reflexivity].
                 now rewrite <- app_assoc.
              ** assert (Head : exists tl,
                           copy_field (c2 :: v) ++ QUOTECHAR :: CR :: LF :: T
                           = c2 :: tl).
                 { cbn [copy_field]. destruct (char_eqb c2 QUOTECHAR) eqn:Eq2.
                   - apply char_eqb_eq in Eq2. subst c2. now eexists.
                   - now eexists. }
                 destruct Head as [tl Head].
                 rewrite Head, (readlines_from_cr _ _ _ Elf2), <- Head.
                 rewrite (read_records_line_in_quotes _ _ _ _ _ Hcur)
                   by (repeat constructor).
                 rewrite (IH (c2 :: v) [] _ (f ++ [CR]) T);
                   [| simpl in *; lia | reflexivity].
                 now rewrite <- app_assoc.
        -- (* any other character *)
           rewrite (readlines_from_other _ _ _ Elf Ecr).
           rewrite (IH v _ r0 (f ++ [c]) T); [| lia |].
           ++ now rewrite <- app_assoc.
           ++ rewrite parse_line_app, Hcur. cbn [bind parse_line].
              now rewrite (step_quoted_char _ _ _ Eq).
Qed.

Lemma copy_field_plain (v : pystr) :
  Forall (fun c => needs_quote c = false) v -> copy_field v = v.
Proof.
  induction 1 as [|c v Hc _ IH]; [reflexivity|].
  apply needs_quote_false in Hc as (_ & Hq & _). cbn [copy_field].
  now rewrite Hq, IH.
Qed.

Lemma existsb_false_Forall {A} (p : A -> bool) (l : list A) :
  existsb p l = false -> Forall (fun x => p x = false) l.
Proof.
  induction l as [|a l IH]; simpl; [constructor|].
  intros H. apply orb_false_iff in H as [Ha Hl]. constructor; auto.
Qed.

(** One written record, read back in front of the rest of the text. *)
Lemma read_records_writerow (v T : pystr) :
  read_records (readlines_from (writerow [v] ++ T) []) parse_reset =
  (records <- read_records (readlines_from T []) parse_reset ;;
   Ok ([v] :: records))%result.
Proof.
  unfold writerow. cbn [List.length Nat.eqb map join]. unfold join_append.
  destruct (existsb needs_quote v || negb (truthy v) && true) eqn:Q.
  - unfold LINETERMINATOR. cbn [app].
    rewrite readlines_from_other by reflexivity.
    rewrite <- !app_assoc. cbn [app].
    exact (read_records_quoted (List.length v) v [QUOTECHAR] parse_reset [] T
                               (le_n _) eq_refl).
  - apply orb_false_iff in Q as [Q1 Q2]. rewrite andb_true_r in Q2.
    apply negb_false_iff, truthy_true in Q2.
    apply existsb_false_Forall in Q1.
    rewrite (copy_field_plain _ Q1), <- app_assoc.
    now apply read_records_plain.
Qed.

Lemma csv_read_items (simplified : list pystr) :
  csv_read (flat_map (fun item => writerow [item]) simplified)
  = Ok (map (fun item => [item]) simplified).
Proof.
  unfold csv_read, readlines.
  induction simplified as [|v vs IH]; [reflexivity|].
  cbn [flat_map map]. rewrite read_records_writerow, IH. reflexivity.
Qed.

(** C3. Reading back the CSV text written for a list of values gives one
    record for each value, in order, whose single field is the value, whatever
    characters the value holds (commas, quotes, line ends, nothing at all).
    With the header written, its record comes first. *)
Theorem csv_round_trip (simplified : list pystr) :
  csv_read (csv_output true simplified)
  = Ok (map (fun item => [item]) simplified) /\
  (forall records,
      csv_read (csv_output true simplified) = Ok records ->
      List.length records = List.length simplified) /\
  csv_read (csv_output false simplified)
  = Ok ([SIMPLIFIED] :: map (fun item => [item]) simplified).
Proof.
  assert (H : csv_read (csv_output true simplified)
              = Ok (map (fun item => [item]) simplified))
    by apply csv_read_items.
  split; [exact H|]. split.
  - intros records Hr. rewrite H in Hr. injection Hr as <-. apply length_map.
  - unfold csv_output, csv_read, readlines. cbn [negb].
    rewrite read_records_writerow.
    fold (readlines (flat_map (fun item => writerow [item]) simplified)).
    fold (csv_read (flat_map (fun item => writerow [item]) simplified)).
    now rewrite csv_read_items.
Qed.

(** A comma and a quote, written and read back as two records. *)
Lemma csv_round_trip_witness :
  List.length [[[97; 44; 98]]; [[97; 34; 98]]]
  = List.length [[97; 44; 98]; [97; 34; 98]].
Proof.
  apply (proj1 (proj2 (csv_round_trip [[97; 44; 98]; [97; 34; 98]]))).
  reflexivity.
Defined.

(** Values with a comma, a quote, a line feed, no character, and U+7684:
    the text written, and the records read back from it. *)
Example csv_round_trip_sample :
  let values := [[97; 44; 98]; [97; 34; 98]; [97; 10; 98]; []; [30340]] in
  csv_output true values
  = [34; 97; 44; 98; 34; 13; 10] ++ [34; 97; 34; 34; 98; 34; 13; 10]
    ++ [34; 97; 10; 98; 34; 13; 10] ++ [34; 34; 13; 10] ++ [30340; 13; 10] /\
  csv_read (csv_output true values) = Ok (map (fun item => [item]) values).
Proof. split; reflexivity. Qed.

(** ** fetch_html *)

(** When the body of the [try] raises. *)
Lemma fetch_primary_raises (w : World) (url : pystr) :
  let req := mkRequest url [(USER_AGENT_KEY, USER_AGENT)] 30 in
  (exists e, snd (fetch_primary w url) = Raise e) <->
  (exists d, import_requests w = Failed d) \/
  (exists d, requests_get w req = Failed d) \/
  (exists resp, requests_get w req = Done resp /\
                in_range 400 599 (status_code resp) = true).
Proof.
  intros req. unfold fetch_primary, raise_for_status. fold req.
  destruct (import_requests w) as [[]|d0] eqn:I; cbn.
  2:{ split; eauto. }
  destruct (requests_get w req) as [resp|d1] eqn:G; cbn.
  2:{ split; eauto. }
  destruct (in_range 400 599 (status_code resp)) eqn:S; cbn.
  - split; eauto 6.
  - split.
    + intros [e [=]].
    + intros [[d [=]]|[[d [=]]|(r & [= <-] & H)]]. congruence.
Qed.

Lemma fetch_primary_events (w : World) (url : pystr) (ev : event) :
  In ev (fst (fetch_primary w url)) ->
  ev = ImportRequests \/
  ev = RequestsGet (mkRequest url [(USER_AGENT_KEY, USER_AGENT)] 30).
Proof.
  unfold fetch_primary, raise_for_status.
  destruct (import_requests w) as [[]|d0]; cbn.
  2:{ intros [<-|[]]. now left. }
  destruct (requests_get w _) as [resp|d1]; cbn.
  2:{ intros [<-|[<-|[]]]; auto. }
  destruct (in_range 400 599 (status_code resp)); cbn;
    intros [<-|[<-|[]]]; auto.
Qed.

Lemma fetch_primary_exception (w : World) (url : pystr) (e : exn) :
  snd (fetch_primary w url) = Raise e -> is_Exception e = true.
Proof.
  unfold fetch_primary, raise_for_status.
  destruct (import_requests w) as [[]|d0]; cbn; [|now intros [= <-]].
  destruct (requests_get w _) as [resp|d1]; cbn; [|now intros [= <-]].
  destruct (in_range 400 599 (status_code resp)); cbn; [|discriminate].
  now intros [= <-].
Qed.

(** C6. [fetch_html] goes to the fallback exactly when the primary path
    raises, whatever raised: the import of the library, the request, or an
    error status. The fallback sends one GET, to the same URL with the same
    user agent and the same timeout of 30 seconds as the primary request;
    its body is decoded as UTF-8 with replacement, which cannot fail, and a
    failure of the fallback itself is the failure of [fetch_html]. *)
Theorem fetch_html_fallback (w : World) (url : pystr) :
  let req := mkRequest url [(USER_AGENT_KEY, USER_AGENT)] 30 in
  (In (Urlopen req) (fst (fetch_html w url)) <->
   exists e, snd (fetch_primary w url) = Raise e) /\
  ((exists e, snd (fetch_primary w url) = Raise e) <->
   (exists d, import_requests w = Failed d) \/
   (exists d, requests_get w req = Failed d) \/
   (exists resp, requests_get w req = Done resp /\
                 in_range 400 599 (status_code resp) = true)) /\
  (forall r, In (Urlopen r) (fst (fetch_html w url)) \/
             In (RequestsGet r) (fst (fetch_html w url)) ->
             r = req /\ req_timeout r = 30 /\
             req_headers r = [(USER_AGENT_KEY, USER_AGENT)]) /\
  (forall html, snd (fetch_primary w url) = Ok html ->
                fetch_html w url = (fst (fetch_primary w url), Ok html)) /\
  (forall e, snd (fetch_primary w url) = Raise e ->
             fetch_html w url =
             (fst (fetch_primary w url) ++ [Urlopen req],
              match urlopen w req with
              | Done body => Ok (utf8_decode_replace body)
              | Failed d => Raise (LibraryError FromUrlopen d)
              end)).
Proof.
  intros req.
  assert (Hok : forall html, snd (fetch_primary w url) = Ok html ->
                fetch_html w url = (fst (fetch_primary w url), Ok html)).
  { intros html H. unfold fetch_html, try_except_Exception.
    destruct (fetch_primary w url) as [t r]. simpl in *. now subst. }
  assert (Hraise : forall e, snd (fetch_primary w url) = Raise e ->
             fetch_html w url =
             (fst (fetch_primary w url) ++ [Urlopen req],
              match urlopen w req with
              | Done body => Ok (utf8_decode_replace body)
              | Failed d => Raise (LibraryError FromUrlopen d)
              end)).
  { intros e H. pose proof (fetch_primary_exception w url e H) as Ex.
    unfold fetch_html, try_except_Exception.
    destruct (fetch_primary w url) as [t r]. simpl in *. subst r.
    rewrite Ex. unfold fetch_fallback. fold req.
    destruct (urlopen w req); reflexivity. }
  assert (Hprim : forall ev, In ev (fst (fetch_primary w url)) ->
                             ev <> Urlopen req).
  { intros ev H. apply fetch_primary_events in H as [->| ->]; discriminate. }
  split; [|split; [|split; [|split]]].
  - split.
    + intros H. destruct (snd (fetch_primary w url)) as [html|e] eqn:R.
      * rewrite (Hok html eq_refl) in H. simpl in H.
        exfalso. now apply (Hprim _ H).
      * now exists e.
    + intros [e H]. rewrite (Hraise e H). simpl.
      apply in_or_app. right. now left.
  - apply fetch_primary_raises.
  - intros r H.
    assert (E : r = req); [|subst r; now repeat split].
    unfold req in *.
    destruct (snd (fetch_primary w url)) as [html|e] eqn:R.
    + rewrite (Hok html eq_refl) in H. simpl in H.
      destruct H as [H|H]; apply fetch_primary_events in H as [H|H];
        congruence.
    + rewrite (Hraise e eq_refl) in H. simpl in H.
      destruct H as [H|H]; apply in_app_or in H as [H|[H|[]]];
        try (apply fetch_primary_events in H as [H|H]); congruence.
  - exact Hok.
  - exact Hraise.
Qed.

(** A page with a stray byte fetched through the fallback, and an error
    status that sends a working library to the fallback. *)
Lemma fetch_html_fallback_witness :
  fetch_html (sample_world []) FOO_URL =
  ([ImportRequests; Urlopen (mkRequest FOO_URL [(USER_AGENT_KEY, USER_AGENT)] 30)],
   Ok [60; 65533; 62]) /\
  In (Urlopen (mkRequest FOO_URL [(USER_AGENT_KEY, USER_AGENT)] 30))
     (fst (fetch_html (requests_world 404) FOO_URL)).
Proof.
  split.
  - apply (proj2 (proj2 (proj2 (proj2
             (fetch_html_fallback (sample_world []) FOO_URL))))
             (LibraryError FromRequests (str "ModuleNotFoundError"))).
    reflexivity.
  - apply (proj1 (fetch_html_fallback (requests_world 404) FOO_URL)).
    exists (LibraryError FromRequests (str "HTTPError")). reflexivity.
Defined.

Example fetch_html_success :
  fetch_html (requests_world 200) FOO_URL =
  ([ImportRequests;
    RequestsGet (mkRequest FOO_URL [(USER_AGENT_KEY, USER_AGENT)] 30)],
   Ok sample_html).
Proof. reflexivity. Qed.

Example utf8_decode_replace_sample :
  utf8_decode_replace [97; 231; 154; 132; 255; 231; 154; 98; 192; 128]
  = [97; 30340; 65533; 65533; 98; 65533; 65533].
Proof. reflexivity. Qed.

(** ** parse_args and main *)

Lemma store_true_default_true (seen : list option_seen) :
  store_true true seen = true.
Proof.
  unfold store_true. induction seen as [|o seen IH]; [reflexivity|].
  simpl. destruct o; exact IH.
Qed.

Lemma parse_args_no_header (w : World) (args : Namespace) :
  parse_args w = Ok args -> no_header args = true.
Proof.
  unfold parse_args.
  destruct (path_home w) as [home|d]; cbn; [|discriminate].
  destruct (argv_options w) as [seen|code]; [|discriminate].
  destruct (store_url seen); [|discriminate].
  intros [= <-]. apply store_true_default_true.
Qed.

(** [parse_args] raises an exit of argparse or the failure of [Path.home()]. *)
Lemma parse_args_raises (w : World) (e : exn) :
  parse_args w = Raise e ->
  (exists code, e = SystemExit code) \/ (exists d, e = LibraryError FromPath d).
Proof.
  unfold parse_args.
  destruct (path_home w) as [home|d]; cbn.
  2:{ intros [= <-]. right. now exists d. }
  destruct (argv_options w) as [seen|code].
  - destruct (store_url seen); [discriminate|].
    intros [= <-]. left. now exists 2.
  - intros [= <-]. left. now exists code.
Qed.

(** The writes of the loop: the records of a prefix of the values, of all
    of them when the loop ends normally. *)
Lemma write_items_trace (w : World) (simplified : list pystr) :
  forall k,
  exists j,
    fst (write_items w k simplified)
    = map (fun item => WriteFile (writerow [item])) (firstn j simplified) /\
    (forall u, snd (write_items w k simplified) = Ok u ->
               firstn j simplified = simplified) /\
    (forall e, snd (write_items w k simplified) = Raise e ->
               exists d, e = LibraryError FromWrite d).
Proof.
  induction simplified as [|item rest IH]; intros k.
  - exists 0%nat. cbn. repeat split; auto. discriminate.
  - cbn [write_items]. unfold writer_writerow, perform, io_bind.
    destruct (file_write w k (writerow [item])) as [[]|d]; cbn [library_call].
    + destruct (IH (S k)) as (j & Ht & Hok & Hr).
      destruct (write_items w (S k) rest) as [t r]. cbn [fst snd] in *.
      exists (S j). cbn. rewrite Ht. repeat split; auto.
      intros u Hu. f_equal. now apply (Hok u).
    + exists 1%nat. cbn. repeat split; auto.
      * discriminate.
      * intros e [= <-]. now exists d.
Qed.

(** A run of [main], step by step. *)
Lemma main_run (w : World) :
  main w =
  match parse_args w with
  | Raise e => ([], Raise e)
  | Ok args =>
  match path_resolve w (out_dir args) with
  | Failed d => ([], Raise (LibraryError FromPath d))
  | Done dir =>
  let mk := Mkdir dir true true in
  match path_mkdir w dir with
  | Failed d => ([mk], Raise (LibraryError FromMkdir d))
  | Done _ =>
  match derive_base (url args) with
  | Raise e => ([mk], Raise e)
  | Ok base =>
  let out_path := dir ++ [csv_name base] in
  let op := OpenFile out_path (str "w") [] (str "utf-8-sig") in
  match fetch_html w (url args) with
  | (tf, Raise e) => (mk :: tf, Raise e)
  | (tf, Ok html) =>
  match extract_simplified (BeautifulSoup w) html with
  | Raise e => (mk :: tf, Raise e)
  | Ok simplified =>
  match path_open w out_path with
  | Failed d => (mk :: tf ++ [op], Raise (LibraryError FromOpen d))
  | Done _ =>
  match write_items w 0 simplified with
  | (tw, Raise e) => (mk :: tf ++ op :: tw ++ [CloseFile], Raise e)
  | (tw, Ok _) =>
      (mk :: tf ++ op :: tw
          ++ [CloseFile; Print (List.length simplified) out_path],
       Ok 0)
  end end end end end end end end.
Proof.
  unfold main.
  destruct (parse_args w) as [args|e] eqn:A; [|reflexivity].
  pose proof (parse_args_no_header w args A) as NH.
  cbn [lift io_bind app].
  destruct (path_resolve w (out_dir args)) as [dir|d]; [|reflexivity].
  cbn [library_call]. unfold perform.
  destruct (path_mkdir w dir) as [[]|d]; [|reflexivity].
  cbn [library_call io_bind].
  destruct (derive_base (url args)) as [base|e]; [|reflexivity].
  destruct (fetch_html w (url args)) as [tf [html|e]]; [|reflexivity].
  cbn [io_bind].
  destruct (extract_simplified (BeautifulSoup w) html) as [simplified|e];
    [|cbn; now rewrite app_nil_r].
  cbn [io_bind].
  destruct (path_open w (dir ++ [csv_name base])) as [[]|d];
    [|cbn; reflexivity].
  rewrite NH.
  cbn [library_call negb ret io_bind finally app].
  destruct (write_items w 0 simplified) as [tw [[]|e]]; cbn;
    rewrite <- ?app_assoc; reflexivity.
Qed.

Lemma fails_before_writing_library (o : origin) (d : pystr) :
  fails_before_writing (LibraryError o d) = true -> o = FromUrlopen.
Proof. destruct o; cbn; congruence. Qed.

(** The run has ended at this step: name its trace and its result. *)
Ltac ended := intros [= <- <-].

(** A library call outside the fetch does not raise one of the exceptions of
    [fails_before_writing]. *)
Ltac other_failure F :=
  apply fails_before_writing_library in F; discriminate.

Lemma fetch_html_cases (w : World) (url : pystr) :
  Forall (fun ev => is_fetch_event ev = true) (fst (fetch_html w url)) /\
  (forall e, snd (fetch_html w url) = Raise e ->
             exists d, e = LibraryError FromUrlopen d).
Proof.
  unfold fetch_html, try_except_Exception, fetch_primary, fetch_fallback,
    raise_for_status.
  destruct (import_requests w) as [[]|d0]; cbn.
  - destruct (requests_get w _) as [resp|d1]; cbn.
    + destruct (in_range 400 599 (status_code resp)); cbn.
      * destruct (urlopen w _) as [body|d]; cbn; split;
          try (repeat constructor); try discriminate.
        intros e [= <-]. now exists d.
      * split; [repeat constructor | discriminate].
    + destruct (urlopen w _) as [body|d]; cbn; split;
        try (repeat constructor); try discriminate.
      intros e [= <-]. now exists d.
  - destruct (urlopen w _) as [body|d]; cbn; split;
      try (repeat constructor); try discriminate.
    intros e [= <-]. now exists d.
Qed.

Lemma fetch_event_not_file (ev : event) :
  is_fetch_event ev = true -> is_file_event ev = false.
Proof. now destruct ev. Qed.

Lemma written_app (a b : list event) : written (a ++ b) = written a ++ written b.
Proof. unfold written. apply flat_map_app. Qed.

Lemma written_fetch (t : list event) :
  Forall (fun ev => is_fetch_event ev = true) t -> written t = [].
Proof.
  induction 1 as [|ev t Hev _ IH]; [reflexivity|].
  unfold written in *. cbn [flat_map]. rewrite IH.
  now destruct ev.
Qed.

Lemma written_items (items : list pystr) :
  written (map (fun item => WriteFile (writerow [item])) items)
  = csv_output true items.
Proof.
  unfold written, csv_output. cbn [negb app].
  induction items as [|item rest IH]; [reflexivity|].
  cbn [map flat_map]. now rewrite IH.
Qed.

(** The lines of the file when no value holds a line end: one for each
    value. *)
Lemma readlines_from_no_newline (v s cur : pystr) :
  Forall (fun c => is_newline c = false) v ->
  readlines_from (v ++ s) cur = readlines_from s (cur ++ v).
Proof.
  intros H; revert cur; induction H as [|c v Hc _ IH]; intros cur.
  - now rewrite app_nil_r.
  - unfold is_newline in Hc. apply orb_false_iff in Hc as [Hlf Hcr].
    cbn [app]. rewrite (readlines_from_other _ _ _ Hlf Hcr), IH.
    now rewrite <- app_assoc.
Qed.

Lemma copy_field_no_newline (v : pystr) :
  Forall (fun c => is_newline c = false) v ->
  Forall (fun c => is_newline c = false) (copy_field v).
Proof.
  induction 1 as [|c v Hc _ IH]; [constructor|].
  cbn [copy_field]. destruct (char_eqb c QUOTECHAR) eqn:E.
  - apply char_eqb_eq in E. subst c. now repeat constructor.
  - now constructor.
Qed.

Lemma join_append_no_newline (v : pystr) (quote_empty : bool) :
  Forall (fun c => is_newline c = false) v ->
  Forall (fun c => is_newline c = false) (join_append v quote_empty).
Proof.
  intros H. apply copy_field_no_newline in H. unfold join_append.
  destruct (existsb needs_quote v || negb (truthy v) && quote_empty); [|exact H].
  constructor; [reflexivity|]. apply Forall_app. split; [exact H|].
  now repeat constructor.
Qed.

Lemma readlines_items (simplified : list pystr) :
  Forall (Forall (fun c => is_newline c = false)) simplified ->
  List.length (readlines (flat_map (fun item => writerow [item]) simplified))
  = List.length simplified.
Proof.
  unfold readlines. induction 1 as [|v vs Hv _ IH]; [reflexivity|].
  cbn [flat_map]. unfold writerow at 1. cbn [List.length Nat.eqb map join].
  unfold LINETERMINATOR. rewrite <- app_assoc.
  rewrite (readlines_from_no_newline _ _ _ (join_append_no_newline v true Hv)).
  cbn [app]. rewrite readlines_from_crlf. cbn [List.length]. now rewrite IH.
Qed.

(** C7. The value of [no_header] is true after every command line that
    argparse accepts, with or without the flag: the default is true and the
    flag can only store true. So a run never writes the header record: what
    it writes is the records of the extracted values, one for each value
    when the run succeeds, and reading the file back gives these values;
    when no value holds a line end, the file has one line for each value. *)
Theorem no_header_always_true (w : World) :
  (forall seen, store_true true seen = true) /\
  (forall args, parse_args w = Ok args -> no_header args = true) /\
  (forall t n,
      main w = (t, Ok n) ->
      exists html simplified,
        extract_simplified (BeautifulSoup w) html = Ok simplified /\
        written t = csv_output true simplified /\
        written t = flat_map (fun item => writerow [item]) simplified /\
        csv_read (written t) = Ok (map (fun item => [item]) simplified) /\
        (Forall (Forall (fun c => is_newline c = false)) simplified ->
         List.length (readlines (written t)) = List.length simplified)) /\
  (forall t r,
      main w = (t, r) ->
      written t = [] \/
      exists html simplified j,
        extract_simplified (BeautifulSoup w) html = Ok simplified /\
        written t = csv_output true (firstn j simplified)).
Proof.
  split; [apply store_true_default_true|].
  split; [apply parse_args_no_header|].
  assert (Run : forall t r,
    main w = (t, r) ->
    written t = [] /\ (forall n, r <> Ok n) \/
    exists html simplified j,
      extract_simplified (BeautifulSoup w) html = Ok simplified /\
      written t = csv_output true (firstn j simplified) /\
      (forall n, r = Ok n -> firstn j simplified = simplified)).
  { intros t r. rewrite main_run.
    destruct (parse_args w) as [args|e].
    2:{ ended. left. split; [reflexivity | discriminate]. }
    destruct (path_resolve w (out_dir args)) as [dir|d].
    2:{ ended. left. split; [reflexivity | discriminate]. }
    cbv zeta.
    destruct (path_mkdir w dir) as [[]|d].
    2:{ ended. left. split; [reflexivity | discriminate]. }
    destruct (derive_base (url args)) as [base|e].
    2:{ ended. left. split; [reflexivity | discriminate]. }
    pose proof (proj1 (fetch_html_cases w (url args))) as Hf.
    destruct (fetch_html w (url args)) as [tf [html|e]]; cbn [fst] in Hf.
    2:{ ended. left. split; [|discriminate].
        change (Mkdir dir true true :: tf) with ([Mkdir dir true true] ++ tf).
        now rewrite written_app, (written_fetch _ Hf). }
    destruct (extract_simplified (BeautifulSoup w) html)
      as [simplified|e] eqn:X.
    2:{ ended. left. split; [|discriminate].
        change (Mkdir dir true true :: tf) with ([Mkdir dir true true] ++ tf).
        now rewrite written_app, (written_fetch _ Hf). }
    destruct (path_open w (dir ++ [csv_name base])) as [[]|d].
    2:{ ended. left. split; [|discriminate].
        change (Mkdir dir true true :: tf ++ ?x)
          with ([Mkdir dir true true] ++ tf ++ x).
        now rewrite !written_app, (written_fetch _ Hf). }
    destruct (write_items_trace w simplified 0) as (j & Ht & Hok & _).
    destruct (write_items w 0 simplified) as [tw [[]|e]];
      cbn [fst snd] in *; intros [= <- <-]; right;
      exists html, simplified, j; (split; [exact X|]); split.
    - change (Mkdir dir true true :: tf ++ ?o :: tw ++ ?x)
        with ([Mkdir dir true true] ++ tf ++ [o] ++ tw ++ x).
      rewrite !written_app, (written_fetch _ Hf), Ht, written_items.
      cbn. now rewrite app_nil_r.
    - intros n _. now apply (Hok tt).
    - change (Mkdir dir true true :: tf ++ ?o :: tw ++ ?x)
        with ([Mkdir dir true true] ++ tf ++ [o] ++ tw ++ x).
      rewrite !written_app, (written_fetch _ Hf), Ht, written_items.
      cbn. now rewrite app_nil_r.
    - discriminate. }
  split.
  - intros t n Hm.
    destruct (Run t (Ok n) Hm) as [[_ H]|(html & simplified & j & X & W & F)].
    + now destruct (H n).
    + rewrite (F n eq_refl) in W. exists html, simplified.
      split; [exact X|]. split; [exact W|]. split; [|split].
      * rewrite W. unfold csv_output. reflexivity.
      * rewrite W. unfold csv_output. cbn [negb app]. apply csv_read_items.
      * intros NL. rewrite W. unfold csv_output. cbn [negb app].
        now apply readlines_items.
  - intros t r Hm.
    destruct (Run t r Hm) as [[H _]|(html & simplified & j & X & W & _)].
    + now left.
    + right. now exists html, simplified, j.
Qed.

(** With the flag and without it the value is true, and the file of the
    sample run holds the one record of its one value. *)
Lemma no_header_always_true_witness :
  no_header (mkNamespace FOO_URL (str "/home/user/Documents") true) = true /\
  no_header (mkNamespace FOO_URL (str "/tmp") true) = true.
Proof.
  split.
  - apply (proj1 (proj2 (no_header_always_true
                           (sample_world [SeenUrl FOO_URL])))).
    reflexivity.
  - apply (proj1 (proj2 (no_header_always_true
                           (sample_world [SeenNoHeader; SeenUrl FOO_URL;
                                          SeenDir (str "/tmp")])))).
    reflexivity.
Defined.

Example main_sample_run :
  main (sample_world [SeenUrl FOO_URL; SeenNoHeader]) =
  ([Mkdir [str "out"] true true;
    ImportRequests;
    Urlopen (mkRequest FOO_URL [(USER_AGENT_KEY, USER_AGENT)] 30);
    OpenFile [str "out"; str "Foo_list.csv"] (str "w") [] (str "utf-8-sig");
    WriteFile [30340; 13; 10];
    CloseFile;
    Print 1 [str "out"; str "Foo_list.csv"]],
   Ok 0).
Proof. reflexivity. Qed.

Lemma no_file_event_fetch (mk : event) (tf : list event) :
  is_file_event mk = false ->
  Forall (fun ev => is_fetch_event ev = true) tf ->
  Forall (fun ev => is_file_event ev = false) (mk :: tf).
Proof.
  intros Hmk Hf. constructor; [exact Hmk|].
  eapply Forall_impl; [|exact Hf]. apply fetch_event_not_file.
Qed.

(** C8. A run that fails in the naming step, in the fetch or in the
    extraction performs no file operation: the output file is not opened,
    written or closed. The file is opened only in a run whose naming step,
    fetch and extraction have all succeeded, and only the directory creation
    and the fetch come before the opening. *)
Theorem output_file_after_extraction (w : World) :
  (forall t e,
      main w = (t, Raise e) ->
      fails_before_writing e = true ->
      Forall (fun ev => is_file_event ev = false) t) /\
  (forall args,
      parse_args w = Ok args ->
      (exists e, derive_base (url args) = Raise e) \/
      (exists e, snd (fetch_html w (url args)) = Raise e) \/
      (exists tf html e,
          fetch_html w (url args) = (tf, Ok html) /\
          extract_simplified (BeautifulSoup w) html = Raise e) ->
      Forall (fun ev => is_file_event ev = false) (fst (main w)) /\
      exists e, snd (main w) = Raise e) /\
  (forall p mode newline encoding,
      In (OpenFile p mode newline encoding) (fst (main w)) ->
      exists args dir base tf html simplified after,
        parse_args w = Ok args /\
        derive_base (url args) = Ok base /\
        fetch_html w (url args) = (tf, Ok html) /\
        extract_simplified (BeautifulSoup w) html = Ok simplified /\
        p = dir ++ [csv_name base] /\
        fst (main w)
        = (Mkdir dir true true :: tf)
            ++ OpenFile p mode newline encoding :: after /\
        Forall (fun ev => is_file_event ev = false)
               (Mkdir dir true true :: tf)).
Proof.
  split; [|split].
  - intros t e. rewrite main_run.
    destruct (parse_args w) as [args|e0] eqn:A.
    2:{ ended. constructor. }
    destruct (path_resolve w (out_dir args)) as [dir|d].
    2:{ ended. constructor. }
    cbv zeta.
    destruct (path_mkdir w dir) as [[]|d].
    2:{ ended. intros _. now repeat constructor. }
    destruct (derive_base (url args)) as [base|e1].
    2:{ ended. intros _. now repeat constructor. }
    pose proof (proj1 (fetch_html_cases w (url args))) as Hf.
    destruct (fetch_html w (url args)) as [tf [html|e2]]; cbn [fst] in Hf.
    2:{ ended. intros _. now apply no_file_event_fetch. }
    destruct (extract_simplified (BeautifulSoup w) html) as [simplified|e3].
    2:{ ended. intros _. now apply no_file_event_fetch. }
    destruct (path_open w (dir ++ [csv_name base])) as [[]|d].
    2:{ ended. intros F. other_failure F. }
    destruct (write_items_trace w simplified 0) as (j & _ & _ & Hr).
    destruct (write_items w 0 simplified) as [tw [[]|e4]]; cbn [snd] in Hr;
      [discriminate|].
    ended. intros F. destruct (Hr e4 eq_refl) as [d ->]. other_failure F.
  - intros args A Hfail. rewrite main_run, A.
    destruct (path_resolve w (out_dir args)) as [dir|d].
    2:{ split; [constructor | cbn; eauto]. }
    cbv zeta.
    destruct (path_mkdir w dir) as [[]|d].
    2:{ split; [now repeat constructor | cbn; eauto]. }
    destruct (derive_base (url args)) as [base|e1].
    2:{ split; [now repeat constructor | cbn; eauto]. }
    pose proof (proj1 (fetch_html_cases w (url args))) as Hf.
    destruct (fetch_html w (url args)) as [tf [html|e2]]; cbn [fst] in Hf.
    2:{ split; [now apply no_file_event_fetch | cbn; eauto]. }
    destruct (extract_simplified (BeautifulSoup w) html) as [simplified|e3]
      eqn:X.
    2:{ split; [now apply no_file_event_fetch | cbn; eauto]. }
    exfalso.
    destruct Hfail as [[e [=]]|[[e H]|(tf' & html' & e & [= <- <-] & H)]].
    + discriminate.
    + congruence.
  - intros p mode newline encoding. rewrite main_run.
    destruct (parse_args w) as [args|e0] eqn:A; [|intros []].
    destruct (path_resolve w (out_dir args)) as [dir|d]; [|intros []].
    cbv zeta.
    destruct (path_mkdir w dir) as [[]|d].
    2:{ intros [[=]|[]]. }
    destruct (derive_base (url args)) as [base|e1] eqn:D.
    2:{ intros [[=]|[]]. }
    pose proof (proj1 (fetch_html_cases w (url args))) as Hf.
    destruct (fetch_html w (url args)) as [tf [html|e2]] eqn:Fh;
      cbn [fst] in Hf.
    2:{ cbn [fst]. intros [[=]|H]. exfalso.
        rewrite Forall_forall in Hf. now apply Hf in H. }
    destruct (extract_simplified (BeautifulSoup w) html) as [simplified|e3]
      eqn:X.
    2:{ cbn [fst]. intros [[=]|H]. exfalso.
        rewrite Forall_forall in Hf. now apply Hf in H. }
    assert (Hopen : forall tail,
      Forall (fun ev => forall q m n c, ev <> OpenFile q m n c) tail ->
      In (OpenFile p mode newline encoding)
         (Mkdir dir true true
            :: tf ++ OpenFile (dir ++ [csv_name base]) (str "w") []
                              (str "utf-8-sig") :: tail) ->
      OpenFile p mode newline encoding
      = OpenFile (dir ++ [csv_name base]) (str "w") [] (str "utf-8-sig")).
    { intros tail Htail [[=]|H].
      apply in_app_or in H as [H|[H|H]].
      - exfalso. rewrite Forall_forall in Hf. now apply Hf in H.
      - now symmetry.
      - exfalso. rewrite Forall_forall in Htail.
        now apply (Htail _ H p mode newline encoding). }
    assert (Hw : forall tw extra,
      (exists j, tw = map (fun item => WriteFile (writerow [item]))
                          (firstn j simplified)) ->
      Forall (fun ev => forall q m n c, ev <> OpenFile q m n c) extra ->
      Forall (fun ev => forall q m n c, ev <> OpenFile q m n c) (tw ++ extra)).
    { intros tw extra [j ->] Hex. apply Forall_app. split; [|exact Hex].
      apply Forall_forall. intros ev Hev.
      apply in_map_iff in Hev as (item & <- & _). discriminate. }
    destruct (path_open w (dir ++ [csv_name base])) as [[]|d].
    + destruct (write_items_trace w simplified 0) as (j & Ht & _ & _).
      destruct (write_items w 0 simplified) as [tw [[]|e4]];
        cbn [fst snd] in *; intros Hin;
        (apply Hopen in Hin;
         [ injection Hin as -> -> -> ->;
           eexists args, dir, base, tf, html, simplified, _;
           do 6 (split; [solve [reflexivity | eassumption]|]);
           now apply no_file_event_fetch
         | apply Hw; [now exists j | repeat constructor; discriminate] ]).
    + cbn [fst]. intros Hin.
      apply Hopen in Hin; [|constructor].
      injection Hin as -> -> -> ->.
      eexists args, dir, base, tf, html, simplified, _.
      do 6 (split; [solve [reflexivity | eassumption]|]).
      now apply no_file_event_fetch.
Qed.

(** The run on a page whose tables yield nothing fails in the extraction,
    after the directory creation and the fetch and without a file event. *)
Lemma output_file_after_extraction_witness :
  Forall (fun ev => is_file_event ev = false)
         [Mkdir [str "tmp"; str "out"] true true;
          ImportRequests;
          Urlopen (mkRequest FOO_URL [(USER_AGENT_KEY, USER_AGENT)] 30)].
Proof.
  apply (proj1 (output_file_after_extraction hollow_world)
               _ (RuntimeError MSG_NO_TABLE)).
  - reflexivity.
  - reflexivity.
Defined.

(** C10. A run that fails in the naming step, in the fetch or in the
    extraction has created the output directory: its first effect is the
    [mkdir] of the resolved directory, with [parents] and [exist_ok] set,
    which succeeded, and the only effects after it are those of the fetch.
    In every run the [mkdir], when it happens, is the first effect. *)
Theorem output_directory_created_first (w : World) :
  (forall t e,
      main w = (t, Raise e) ->
      fails_before_writing e = true ->
      exists args dir rest,
        parse_args w = Ok args /\
        path_resolve w (out_dir args) = Done dir /\
        path_mkdir w dir = Done tt /\
        t = Mkdir dir true true :: rest /\
        Forall (fun ev => is_fetch_event ev = true) rest) /\
  (forall before dir parents exist_ok after,
      fst (main w) = before ++ Mkdir dir parents exist_ok :: after ->
      before = [] /\ parents = true /\ exist_ok = true /\
      exists args, parse_args w = Ok args /\
                   path_resolve w (out_dir args) = Done dir).
Proof.
  split.
  - intros t e. rewrite main_run.
    destruct (parse_args w) as [args|e0] eqn:A.
    2:{ intros [= <- <-] F. exfalso.
        apply parse_args_raises in A as [[c ->]|[d ->]]; [discriminate|].
        other_failure F. }
    destruct (path_resolve w (out_dir args)) as [dir|d] eqn:R.
    2:{ ended. intros F. other_failure F. }
    cbv zeta.
    destruct (path_mkdir w dir) as [[]|d] eqn:M.
    2:{ ended. intros F. other_failure F. }
    destruct (derive_base (url args)) as [base|e1].
    2:{ ended. intros _. exists args, dir, []. repeat split; auto. }
    pose proof (proj1 (fetch_html_cases w (url args))) as Hf.
    destruct (fetch_html w (url args)) as [tf [html|e2]]; cbn [fst] in Hf.
    2:{ ended. intros _. exists args, dir, tf. repeat split; auto. }
    destruct (extract_simplified (BeautifulSoup w) html) as [simplified|e3].
    2:{ ended. intros _. exists args, dir, tf. repeat split; auto. }
    destruct (path_open w (dir ++ [csv_name base])) as [[]|d].
    2:{ ended. intros F. other_failure F. }
    destruct (write_items_trace w simplified 0) as (j & _ & _ & Hr).
    destruct (write_items w 0 simplified) as [tw [[]|e4]]; cbn [snd] in Hr;
      [discriminate|].
    ended. intros F. destruct (Hr e4 eq_refl) as [d ->]. other_failure F.
  - intros before dir parents exist_ok after.
    assert (First : forall d rest,
      (forall ev, In ev rest -> forall q a b, ev <> Mkdir q a b) ->
      Mkdir d true true :: rest = before ++ Mkdir dir parents exist_ok :: after ->
      before = [] /\ parents = true /\ exist_ok = true /\ d = dir).
    { intros d rest Hrest E. destruct before as [|b before].
      - cbn in E. injection E as -> -> -> _. auto.
      - cbn in E. injection E as _ E. exfalso.
        apply (Hrest (Mkdir dir parents exist_ok)
                     ltac:(rewrite E; apply in_elt) dir parents exist_ok).
        reflexivity. }
    rewrite main_run.
    destruct (parse_args w) as [args|e0] eqn:A.
    2:{ cbn. intros E. now destruct before. }
    destruct (path_resolve w (out_dir args)) as [d0|d] eqn:R.
    2:{ cbn. intros E. now destruct before. }
    cbv zeta.
    pose proof (proj1 (fetch_html_cases w (url args))) as Hf.
    rewrite Forall_forall in Hf.
    assert (Hfetch : forall ev, In ev (fst (fetch_html w (url args))) ->
                                forall q a b, ev <> Mkdir q a b).
    { intros ev H q a b ->. apply Hf in H. discriminate. }
    intros E.
    assert (G : before = [] /\ parents = true /\ exist_ok = true /\ d0 = dir);
      [|destruct G as (-> & -> & -> & <-); repeat split; eauto].
    destruct (path_mkdir w d0) as [[]|d].
    2:{ apply (First d0 []); [intros ev []|exact E]. }
    destruct (derive_base (url args)) as [base|e1].
    2:{ apply (First d0 []); [intros ev []|exact E]. }
    destruct (fetch_html w (url args)) as [tf [html|e2]]; cbn [fst] in *.
    2:{ apply (First d0 tf); [exact Hfetch|exact E]. }
    destruct (extract_simplified (BeautifulSoup w) html) as [simplified|e3].
    2:{ apply (First d0 tf); [exact Hfetch|exact E]. }
    destruct (write_items_trace w simplified 0) as (j & Ht & _ & _).
    assert (Htw : forall ev, In ev (fst (write_items w 0 simplified)) ->
                             forall q a b, ev <> Mkdir q a b).
    { intros ev H q a b ->. rewrite Ht in H.
      apply in_map_iff in H as (item & [=] & _). }
    destruct (path_open w (d0 ++ [csv_name base])) as [[]|d].
    + destruct (write_items w 0 simplified) as [tw [[]|e4]];
        cbn [fst snd] in *;
        (eapply First; [|exact E]);
        intros ev H q a b; apply in_app_or in H as [H|[<-|H]];
          try (now apply Hfetch); try discriminate;
          apply in_app_or in H as [H|H]; try (now apply Htw);
          cbn in H; intuition (subst; discriminate).
    + eapply First; [|exact E].
      intros ev H q a b. apply in_app_or in H as [H|[<-|[]]];
        [now apply Hfetch | discriminate].
Qed.

(** A URL made of a slash fails in the naming step, after the directory
    has been created. *)
Lemma output_directory_created_first_witness :
  exists args dir rest,
    parse_args (sample_world [SeenUrl [SLASH]]) = Ok args /\
    path_resolve (sample_world [SeenUrl [SLASH]]) (out_dir args) = Done dir /\
    path_mkdir (sample_world [SeenUrl [SLASH]]) dir = Done tt /\
    [Mkdir [str "out"] true true] = Mkdir dir true true :: rest /\
    Forall (fun ev => is_fetch_event ev = true) rest.
Proof.
  apply (proj1 (output_directory_created_first (sample_world [SeenUrl [SLASH]]))
               _ (RuntimeError MSG_NO_NAME)).
  - reflexivity.
  - reflexivity.
Defined.

(* ================================================================== *)
(** * Further properties *)

(** ** Splitting and stripping *)

Lemma join_split (sep : char) (s : pystr) : join [sep] (split sep s) = s.
Proof.
  induction s as [|c s IH]; [reflexivity|].
  cbn [split]. pose proof (split_nonempty sep s) as NE.
  destruct (char_eqb c sep) eqn:E.
  - apply char_eqb_eq in E. subst c.
    destruct (split sep s) as [|seg segs]; [contradiction|].
    cbn [join app] in *. now rewrite IH.
  - destruct (split sep s) as [|seg segs]; [contradiction|].
    destruct segs; cbn [join app] in *; now rewrite IH.
Qed.

Lemma split_no_sep (sep : char) (s : pystr) :
  Forall (fun seg => ~ In sep seg) (split sep s).
Proof.
  induction s as [|c s IH]; [repeat constructor; intros []|].
  cbn [split]. destruct (char_eqb c sep) eqn:E.
  - constructor; [intros []|exact IH].
  - destruct (split sep s) as [|seg segs]; [repeat constructor|].
    + intros [->|[]]. rewrite (proj2 (char_eqb_eq sep sep) eq_refl) in E.
      discriminate.
    + inversion IH as [|? ? Hseg Hsegs]; subst. constructor; [|exact Hsegs].
      intros [->|H]; [|now apply Hseg].
      rewrite (proj2 (char_eqb_eq sep sep) eq_refl) in E. discriminate.
Qed.

Lemma split_plain (sep : char) (s : pystr) : ~ In sep s -> split sep s = [s].
Proof.
  induction s as [|c s IH]; intros H; [reflexivity|].
  cbn [split]. destruct (char_eqb c sep) eqn:E.
  - apply char_eqb_eq in E. subst c. exfalso. apply H. now left.
  - rewrite IH; [reflexivity|]. intros Hin. apply H. now right.
Qed.

Lemma split_app_sep (sep : char) (a b : pystr) :
  split sep (a ++ sep :: b) = split sep a ++ split sep b.
Proof.
  induction a as [|c a IH].
  - cbn [app split]. now rewrite (proj2 (char_eqb_eq sep sep) eq_refl).
  - cbn [app split]. rewrite IH. destruct (char_eqb c sep); [reflexivity|].
    pose proof (split_nonempty sep a) as NE.
    destruct (split sep a) as [|seg segs]; [contradiction|]. reflexivity.
Qed.

Lemma join_snoc (sep : pystr) (init : list pystr) (x : pystr) :
  init <> [] -> join sep (init ++ [x]) = join sep init ++ sep ++ x.
Proof.
  induction init as [|p init IH]; [contradiction|]. intros _.
  destruct init as [|q init]; [reflexivity|].
  change ((p :: q :: init) ++ [x]) with (p :: ((q :: init) ++ [x])).
  change (join sep (p :: (q :: init) ++ [x]))
    with (p ++ sep ++ join sep ((q :: init) ++ [x])).
  rewrite IH by discriminate.
  change (join sep (p :: q :: init)) with (p ++ sep ++ join sep (q :: init)).
  now rewrite <- !app_assoc.
Qed.

Lemma lstrip_by_ext (p q : char -> bool) (s : pystr) :
  (forall c, p c = q c) -> lstrip_by p s = lstrip_by q s.
Proof.
  intros H. induction s as [|c s IH]; [reflexivity|].
  cbn [lstrip_by]. now rewrite H, IH.
Qed.

(** What is dropped on the left is a run of characters satisfying [p]. *)
Lemma lstrip_by_split (p : char -> bool) (s : pystr) :
  exists dropped, s = dropped ++ lstrip_by p s /\ forallb p dropped = true.
Proof.
  induction s as [|c s (d & E & F)]; [now exists []|].
  cbn [lstrip_by]. destruct (p c) eqn:Pc.
  - exists (c :: d). cbn. rewrite Pc, F. split; [now f_equal | reflexivity].
  - now exists [].
Qed.

Lemma lstrip_by_all (p : char -> bool) (a b : pystr) :
  forallb p a = true -> lstrip_by p (a ++ b) = lstrip_by p b.
Proof.
  induction a as [|c a IH]; [reflexivity|]. cbn.
  intros H. apply andb_true_iff in H as [Pc Pa]. now rewrite Pc, IH.
Qed.

Lemma rstrip_by_split (p : char -> bool) (s : pystr) :
  exists tail, s = rstrip_by p s ++ tail /\ forallb p tail = true.
Proof.
  unfold rstrip_by. destruct (lstrip_by_split p (rev s)) as (d & E & F).
  exists (rev d). split.
  - rewrite <- rev_app_distr, <- E. now rewrite rev_involutive.
  - now rewrite forallb_rev.
Qed.

(** A string whose last character is kept loses exactly a tail of stripped
    characters. *)
Lemma rstrip_by_tail (p : char -> bool) (x tail : pystr) (c : char) :
  p c = false -> forallb p tail = true ->
  rstrip_by p ((x ++ [c]) ++ tail) = x ++ [c].
Proof.
  intros Pc Pt. unfold rstrip_by. rewrite rev_app_distr.
  rewrite lstrip_by_all by now rewrite forallb_rev.
  rewrite rev_app_distr. cbn [rev app lstrip_by]. rewrite Pc.
  cbn [rev app]. now rewrite rev_involutive.
Qed.

Lemma rstrip_slash (s : pystr) :
  rstrip (str "/") s = rstrip_by (fun c => char_eqb c SLASH) s.
Proof.
  unfold rstrip, rstrip_by. f_equal. apply lstrip_by_ext. apply slash_chars.
Qed.

Lemma forallb_slash (tail : pystr) :
  forallb (fun c => char_eqb c SLASH) tail = true <->
  Forall (fun c => c = SLASH) tail.
Proof.
  rewrite forallb_forall, Forall_forall. split; intros H c Hc.
  - now apply char_eqb_eq, H.
  - now apply char_eqb_eq, H.
Qed.

(** X1. Splitting on a character and joining the segments with it gives the
    string back; there is always at least one segment, and no segment holds
    the separator. *)
Theorem split_join_round_trip (sep : char) (s : pystr) :
  join [sep] (split sep s) = s /\
  split sep s <> [] /\
  Forall (fun seg => ~ In sep seg) (split sep s).
Proof.
  split; [apply join_split|]. split; [apply split_nonempty|].
  apply split_no_sep.
Qed.

(** X2. [derive_base] returns [base] exactly when [base] is not empty, holds
    no slash, and the URL is [base] followed by slashes only and preceded by
    nothing or by a part that ends with a slash. So the base name is one path
    component, and whatever follows the last inner slash (a query string, a
    dot) is part of it. *)
Theorem derive_base_spec (url base : pystr) :
  derive_base url = Ok base <->
  base <> [] /\ ~ In SLASH base /\
  exists pre tail,
    url = pre ++ base ++ tail /\
    Forall (fun c => c = SLASH) tail /\
    (pre = [] \/ exists p, pre = p ++ [SLASH]).
Proof.
  unfold derive_base. rewrite rstrip_slash.
  set (p := fun c => char_eqb c SLASH).
  split.
  - destruct (rstrip_by_split p url) as (tail & E & T).
    pose proof (join_split SLASH (rstrip_by p url)) as J.
    pose proof (split_no_sep SLASH (rstrip_by p url)) as NS.
    unfold last_item.
    destruct (rev (split SLASH (rstrip_by p url))) as [|b rinit] eqn:R;
      [discriminate|].
    cbn [bind]. destruct (truthy b) eqn:Tb; [|discriminate].
    cbn [negb]. intros [= <-].
    assert (L : split SLASH (rstrip_by p url) = rev rinit ++ [b]).
    { rewrite <- (rev_involutive (split SLASH (rstrip_by p url))), R.
      reflexivity. }
    rewrite L in J, NS. apply Forall_app in NS as [_ NS].
    inversion NS as [|? ? Hb _]; subst.
    split; [now apply truthy_true|]. split; [exact Hb|].
    destruct (rev rinit) as [|q init] eqn:Ri.
    + exists [], tail. cbn [app join] in *. rewrite J. split; [exact E|].
      split; [now apply forallb_slash | now left].
    + rewrite join_snoc in J by discriminate.
      exists (join [SLASH] (q :: init) ++ [SLASH]), tail.
      split; [|split; [now apply forallb_slash | right; eauto]].
      rewrite E at 1. rewrite <- J. now rewrite <- !app_assoc.
  - intros (NE & NS & pre & tail & -> & T & Hpre).
    apply forallb_slash in T.
    destruct (exists_last NE) as (b0 & c & ->).
    assert (Pc : p c = false).
    { unfold p. destruct (char_eqb c SLASH) eqn:E; [|reflexivity].
      apply char_eqb_eq in E. subst c. exfalso. apply NS.
      apply in_or_app. right. now left. }
    rewrite (app_assoc pre), (app_assoc pre b0 [c]).
    rewrite (rstrip_by_tail p (pre ++ b0) tail c Pc T).
    rewrite <- app_assoc.
    destruct Hpre as [->|[q ->]].
    + cbn [app]. rewrite (split_plain _ _ NS). cbn.
      destruct (b0 ++ [c]) eqn:E; [now destruct b0|reflexivity].
    + rewrite <- app_assoc. cbn [app]. rewrite split_app_sep.
      rewrite (split_plain _ _ NS), last_item_snoc. cbn [bind].
      destruct (b0 ++ [c]) eqn:E; [now destruct b0|reflexivity].
Qed.

(** A page name with a query string, below two directories and followed by
    two slashes. *)
Lemma derive_base_spec_witness :
  derive_base (str "a/b/c?d=1//") = Ok (str "c?d=1").
Proof.
  apply (proj2 (derive_base_spec (str "a/b/c?d=1//") (str "c?d=1"))).
  split; [discriminate|]. split.
  - vm_compute. intuition discriminate.
  - exists (str "a/b/"), (str "//"). split; [reflexivity|]. split.
    + repeat constructor.
    + right. exists (str "a/b"). reflexivity.
Defined.

(** ** Trimmed values *)

Lemma lstrip_by_kept (p : char -> bool) (c : char) (s : pystr) :
  p c = false -> lstrip_by p (c :: s) = c :: s.
Proof. intros H. cbn. now rewrite H. Qed.

Lemma lstrip_by_snoc (p : char -> bool) (l : pystr) (c : char) :
  p c = false -> lstrip_by p (l ++ [c]) = lstrip_by p l ++ [c].
Proof.
  intros H. induction l as [|a l IH]; cbn; [now rewrite H|].
  destruct (p a); [exact IH | reflexivity].
Qed.

Lemma lstrip_trimmed (s : pystr) : head_kept s -> lstrip_by isspace s = s.
Proof. destruct s as [|c s]; [reflexivity|]. apply lstrip_by_kept. Qed.

Lemma strip_trimmed (s : pystr) : trimmed s -> strip s = s.
Proof.
  intros [H1 H2]. unfold strip, rstrip_by.
  rewrite (lstrip_trimmed _ H1), (lstrip_trimmed _ H2).
  apply rev_involutive.
Qed.

Lemma head_kept_lstrip (s : pystr) : head_kept (lstrip_by isspace s).
Proof.
  pose proof (lstrip_by_head isspace s) as H.
  destruct (lstrip_by isspace s); [exact I | apply H].
Qed.

(** The result of [strip] is trimmed. *)
Lemma trimmed_strip (s : pystr) : trimmed (strip s).
Proof.
  unfold strip, rstrip_by, trimmed. split.
  - pose proof (head_kept_lstrip s) as H.
    destruct (lstrip_by isspace s) as [|c x]; [exact I|].
    cbn [rev]. cbn [head_kept] in H. rewrite (lstrip_by_snoc _ _ _ H).
    rewrite rev_app_distr. exact H.
  - rewrite rev_involutive. apply head_kept_lstrip.
Qed.

Lemma head_kept_app (a b : pystr) : a <> [] -> head_kept a -> head_kept (a ++ b).
Proof. destruct a; [contradiction | auto]. Qed.

Lemma join_nil_concat (parts : list pystr) : join [] parts = List.concat parts.
Proof.
  induction parts as [|p ps IH]; [reflexivity|].
  destruct ps as [|q ps]; [cbn; now rewrite app_nil_r|].
  change (join [] (p :: q :: ps)) with (p ++ [] ++ join [] (q :: ps)).
  now rewrite IH.
Qed.

(** Joining trimmed, non-empty pieces without a separator gives a trimmed
    string. *)
Lemma trimmed_concat (parts : list pystr) :
  Forall (fun s => s <> [] /\ trimmed s) parts -> trimmed (List.concat parts).
Proof.
  induction 1 as [|s ps [NE [H1 H2]] Hps [IH1 IH2]]; [now split|].
  cbn [List.concat]. split.
  - now apply head_kept_app.
  - rewrite rev_app_distr. destruct ps as [|q ps]; [exact H2|].
    apply head_kept_app; [|exact IH2].
    inversion Hps as [|? ? [NEq _] _]; subst. cbn [List.concat].
    intros E. apply (f_equal (@rev char)) in E. rewrite rev_involutive in E.
    cbn in E. now destruct q.
Qed.

Lemma all_strings_stripped_trimmed (e : PageElement) :
  Forall (fun s => s <> [] /\ trimmed s) (all_strings_stripped e).
Proof.
  unfold all_strings_stripped. apply Forall_forall. intros s Hs.
  apply in_flat_map in Hs as (d & _ & Hd).
  destruct d as [t|t|n cs]; try contradiction.
  destruct (truthy (strip t)) eqn:T; [|contradiction].
  destruct Hd as [<-|[]]. split; [now apply truthy_true | apply trimmed_strip].
Qed.

Lemma get_text_trimmed (e : PageElement) : trimmed (get_text [] e).
Proof.
  unfold get_text. rewrite join_nil_concat.
  apply trimmed_concat, all_strings_stripped_trimmed.
Qed.

Lemma cell_text_trimmed (idx : nat) (tr : PageElement) :
  trimmed (cell_text idx tr).
Proof.
  unfold cell_text.
  destruct (nth_error (find_all (str "td") tr) idx); [|now split].
  apply get_text_trimmed.
Qed.

(** X3. Every value returned by [extract_simplified] is trimmed: its first
    and its last character are not white space, so stripping it again
    changes nothing. *)
Theorem extract_simplified_trimmed
        (BeautifulSoup : option (pystr -> PageElement)) (html : pystr)
        (values : list pystr) :
  extract_simplified BeautifulSoup html = Ok values ->
  Forall (fun v => strip v = v /\
                   (forall c rest, v = c :: rest -> isspace c = false) /\
                   (forall init c, v = init ++ [c] -> isspace c = false))
         values.
Proof.
  destruct BeautifulSoup as [parse|]; [|discriminate].
  rewrite extract_simplified_find.
  destruct (find qualifies (find_all (str "table") (parse html)))
    as [table|]; [|discriminate].
  destruct (simplified_column table) as [idx|]; [|discriminate].
  intros [= <-]. unfold column_values. apply Forall_forall. intros v Hv.
  apply in_map_iff in Hv as (tr & <- & _).
  pose proof (cell_text_trimmed idx tr) as T.
  split; [now apply strip_trimmed|]. destruct T as [T1 T2]. split.
  - intros c rest E. rewrite E in T1. exact T1.
  - intros init c E. rewrite E, rev_app_distr in T2. exact T2.
Qed.

Lemma extract_simplified_trimmed_witness :
  Forall (fun v : pystr =>
            strip v = v /\
            (forall c rest, v = c :: rest -> isspace c = false) /\
            (forall init c, v = init ++ [c] -> isspace c = false))
         [[30340]].
Proof.
  apply (extract_simplified_trimmed (Some parse_sample) sample_html).
  reflexivity.
Defined.

(** ** Nested tables *)

(** Induction on the tree, with the property for all the children. *)
Lemma PageElement_tree_ind (P : PageElement -> Prop) :
  (forall s, P (NavigableString s)) ->
  (forall s, P (Comment s)) ->
  (forall name contents, Forall P contents -> P (Tag name contents)) ->
  forall e, P e.
Proof.
  intros Hs Hc Ht. fix IH 1. intros [s|s|name contents].
  - apply Hs.
  - apply Hc.
  - apply Ht. induction contents as [|c cs IHcs]; constructor.
    + apply IH.
    + exact IHcs.
Qed.

(** What is below a descendant is below the element. *)
Lemma descendants_trans (e d x : PageElement) :
  In d (descendants e) -> In x (descendants d) -> In x (descendants e).
Proof.
  revert d x. induction e as [s|s|name contents IH] using PageElement_tree_ind;
    intros d x Hd Hx; try contradiction.
  cbn [descendants] in *. apply in_flat_map in Hd as (c & Hc & Hdc).
  apply in_flat_map. exists c. split; [exact Hc|]. right.
  destruct Hdc as [<-|Hdc]; [exact Hx|].
  rewrite Forall_forall in IH. exact (IH c Hc d x Hdc Hx).
Qed.

Lemma find_all_below (name inner_name : pystr) (e inner : PageElement) :
  In inner (find_all inner_name e) ->
  incl (find_all name inner) (find_all name e).
Proof.
  unfold find_all. intros Hin x Hx.
  apply filter_In in Hin as [Hin _]. apply filter_In in Hx as [Hx Px].
  apply filter_In. split; [|exact Px]. exact (descendants_trans _ _ _ Hin Hx).
Qed.

(** X4. The rows of a table nested in another table are rows of the outer
    table too: every row of the inner table that counts for a column counts
    for that column of the outer table, and the inner table is itself among
    the tables of every element the outer table is found in. *)
Theorem nested_table_rows (soup outer inner : PageElement) (idx : nat) :
  In outer (find_all (str "table") soup) ->
  In inner (find_all (str "table") outer) ->
  incl (table_rows inner) (table_rows outer) /\
  incl (counting_rows idx inner) (counting_rows idx outer) /\
  incl (column_values idx inner) (column_values idx outer) /\
  In inner (find_all (str "table") soup).
Proof.
  intros Hout Hin.
  assert (R : incl (table_rows inner) (table_rows outer))
    by exact (find_all_below _ _ _ _ Hin).
  assert (C : incl (counting_rows idx inner) (counting_rows idx outer)).
  { intros tr Htr. unfold counting_rows in *.
    apply filter_In in Htr as [Htr P]. apply filter_In. split; [|exact P].
    now apply R. }
  split; [exact R|]. split; [exact C|]. split.
  - intros v Hv. unfold column_values in *.
    apply in_map_iff in Hv as (tr & <- & Htr). apply in_map. now apply C.
  - exact (find_all_below _ _ _ _ Hout inner Hin).
Qed.

Lemma nested_table_rows_witness :
  incl (table_rows sample_table) (table_rows layout_table) /\
  incl (counting_rows 1 sample_table) (counting_rows 1 layout_table) /\
  incl (column_values 1 sample_table) (column_values 1 layout_table) /\
  In sample_table (find_all (str "table") (document [layout_table])).
Proof.
  apply (nested_table_rows (document [layout_table]) layout_table sample_table 1).
  - vm_compute. left. reflexivity.
  - vm_compute. left. reflexivity.
Defined.

(** The layout table comes first and takes the rank of the first inner row
    from its own row, whose second data cell is that cell. *)
Example extract_simplified_layout :
  extract_simplified (Some (fun _ => document [layout_table])) sample_html
  = Ok [str "1"; [30340]].
Proof. reflexivity. Qed.

(** ** The failures of fetch_html *)

(** X5. [fetch_html] raises exactly when the primary path raises and the
    fallback request fails too, and the exception it raises is the one of
    the fallback: the failure of the primary path, whatever it was, never
    reaches the caller. It returns the text of the primary response when the
    primary path does not raise, and the decoded body of the fallback
    otherwise. *)
Theorem fetch_html_masks_primary (w : World) (url : pystr) :
  let req := mkRequest url [(USER_AGENT_KEY, USER_AGENT)] 30 in
  (forall e,
      snd (fetch_html w url) = Raise e <->
      (exists e0, snd (fetch_primary w url) = Raise e0) /\
      exists d, urlopen w req = Failed d /\ e = LibraryError FromUrlopen d) /\
  (forall html,
      snd (fetch_html w url) = Ok html <->
      snd (fetch_primary w url) = Ok html \/
      (exists e0, snd (fetch_primary w url) = Raise e0) /\
      exists body, urlopen w req = Done body /\
                   html = utf8_decode_replace body) /\
  (forall e o d, snd (fetch_html w url) = Raise e ->
                 e = LibraryError o d -> o <> FromRequests).
Proof.
  intros req.
  assert (Cases :
    (exists html, snd (fetch_primary w url) = Ok html /\
                  snd (fetch_html w url) = Ok html) \/
    (exists e0, snd (fetch_primary w url) = Raise e0 /\
                snd (fetch_html w url) =
                match urlopen w req with
                | Done body => Ok (utf8_decode_replace body)
                | Failed d => Raise (LibraryError FromUrlopen d)
                end)).
  { pose proof (fetch_primary_exception w url) as Ex.
    unfold fetch_html, try_except_Exception, fetch_fallback. fold req.
    destruct (fetch_primary w url) as [t [html|e0]]; cbn [snd] in *.
    - left. now exists html.
    - right. exists e0. rewrite (Ex e0 eq_refl).
      destruct (urlopen w req); now split. }
  split; [|split].
  - intros e. destruct Cases as [(html & P & F)|(e0 & P & F)]; rewrite F, P.
    + split; [discriminate|]. now intros [[e0 [=]] _].
    + destruct (urlopen w req) as [body|d].
      * split; [discriminate|]. now intros (_ & d & [=] & _).
      * split.
        -- intros [= <-]. split; [now exists e0 | now exists d].
        -- now intros (_ & d' & [= <-] & ->).
  - intros html. destruct Cases as [(h & P & F)|(e0 & P & F)]; rewrite F, P.
    + split; [now left|]. intros [H|[[e0 [=]] _]]. exact H.
    + destruct (urlopen w req) as [body|d].
      * split.
        -- intros [= <-]. right. split; [now exists e0 | now exists body].
        -- intros [[=]|(_ & b & [= <-] & ->)]. reflexivity.
      * split; [discriminate|].
        now intros [[=]|(_ & b & [=] & _)].
  - intros e o d He ->.
    destruct Cases as [(h & _ & F)|(e0 & _ & F)]; rewrite F in He;
      [discriminate|].
    destruct (urlopen w req); [discriminate|]. injection He as <- _.
    discriminate.
Qed.

(** A page that the library answers with status 404 and that the fallback
    cannot fetch either: the caller sees the failure of the fallback. *)
Lemma fetch_html_masks_primary_witness :
  snd (fetch_html (requests_world 404) FOO_URL)
  = Raise (LibraryError FromUrlopen (str "URLError")).
Proof.
  apply (proj1 (fetch_html_masks_primary (requests_world 404) FOO_URL)
               (LibraryError FromUrlopen (str "URLError"))).
  split.
  - exists (LibraryError FromRequests (str "HTTPError")). reflexivity.
  - exists (str "URLError"). split; reflexivity.
Defined.

(** ** Decoding with replacement *)

Lemma is_scalar_bounds (c : char) :
  c < 55296 \/ (57343 < c /\ c <= 1114111) -> is_scalar c = true.
Proof.
  unfold is_scalar. intros [H|[H1 H2]].
  - apply N.ltb_lt in H. now rewrite H.
  - apply N.ltb_lt in H1. apply N.leb_le in H2. rewrite H1, H2.
    apply orb_true_r.
Qed.

(** Turn the tests of the decoder into inequalities. *)
Ltac byte_facts :=
  unfold in_range, second_lo, second_hi in *;
  repeat match goal with
         | H : (_ && _) = true |- _ =>
             apply andb_true_iff in H; destruct H
         | H : (_ <=? _) = true |- _ => apply N.leb_le in H
         | H : (_ <? _) = true |- _ => apply N.ltb_lt in H
         | H : (_ <? _) = false |- _ => apply N.ltb_ge in H
         | H : context [if ?a =? ?b then _ else _] |- _ =>
             destruct (N.eqb_spec a b)
         end.

Lemma utf8_decode_replace_scalar (n : nat) :
  forall bs, (List.length bs <= n)%nat ->
    Forall (fun c => is_scalar c = true) (utf8_decode_replace bs) /\
    (List.length (utf8_decode_replace bs) <= List.length bs)%nat.
Proof.
  induction n as [|n IH]; intros bs Hn.
  - destruct bs; [now split | simpl in Hn; lia].
  - assert (Rec : forall r, (List.length r <= n)%nat ->
                  forall c, is_scalar c = true ->
                  forall k, (List.length r < k)%nat ->
                  Forall (fun c => is_scalar c = true)
                         (c :: utf8_decode_replace r) /\
                  (List.length (c :: utf8_decode_replace r) <= k)%nat).
    { intros r Hr c Hc k Hk. destruct (IH r Hr) as [F L].
      split; [now constructor | simpl; lia]. }
    assert (One : forall k, (0 < k)%nat ->
                  Forall (fun c => is_scalar c = true) [REPLACEMENT] /\
                  (List.length [REPLACEMENT] <= k)%nat).
    { intros k Hk. split; [now repeat constructor | simpl; lia]. }
    destruct bs as [|b0 r0]; [now split|].
    cbn [utf8_decode_replace]. simpl in Hn.
    destruct (b0 <? 128) eqn:T0.
    { apply Rec; [lia | | simpl; lia].
      apply is_scalar_bounds. byte_facts. lia. }
    destruct (in_range 194 223 b0) eqn:T2.
    { destruct r0 as [|b1 r1]; [apply One; simpl; lia|]. simpl in Hn.
      destruct (in_range 128 191 b1) eqn:C1.
      - apply Rec; [lia | | simpl; lia].
        apply is_scalar_bounds. byte_facts. lia.
      - apply Rec; [simpl; lia | reflexivity | simpl; lia]. }
    destruct (in_range 224 239 b0) eqn:T3.
    { destruct r0 as [|b1 r1]; [apply One; simpl; lia|]. simpl in Hn.
      destruct (in_range (second_lo b0) (second_hi b0) b1) eqn:C1.
      - destruct r1 as [|b2 r2]; [apply One; simpl; lia|]. simpl in Hn.
        destruct (in_range 128 191 b2) eqn:C2.
        + apply Rec; [lia | | simpl; lia].
          apply is_scalar_bounds. byte_facts; lia.
        + apply Rec; [simpl; lia | reflexivity | simpl; lia].
      - apply Rec; [simpl; lia | reflexivity | simpl; lia]. }
    destruct (in_range 240 244 b0) eqn:T4.
    { destruct r0 as [|b1 r1]; [apply One; simpl; lia|]. simpl in Hn.
      destruct (in_range (second_lo b0) (second_hi b0) b1) eqn:C1.
      - destruct r1 as [|b2 r2]; [apply One; simpl; lia|]. simpl in Hn.
        destruct (in_range 128 191 b2) eqn:C2.
        + destruct r2 as [|b3 r3]; [apply One; simpl; lia|]. simpl in Hn.
          destruct (in_range 128 191 b3) eqn:C3.
          * apply Rec; [lia | | simpl; lia].
            apply is_scalar_bounds. byte_facts; lia.
          * apply Rec; [simpl; lia | reflexivity | simpl; lia].
        + apply Rec; [simpl; lia | reflexivity | simpl; lia].
      - apply Rec; [simpl; lia | reflexivity | simpl; lia]. }
    apply Rec; [lia | reflexivity | simpl; lia].
Qed.

Lemma utf8_decode_replace_ascii (bs : bytes) :
  Forall (fun b => b < 128) bs -> utf8_decode_replace bs = bs.
Proof.
  induction 1 as [|b bs Hb _ IH]; [reflexivity|].
  cbn [utf8_decode_replace]. apply N.ltb_lt in Hb. now rewrite Hb, IH.
Qed.

(** X6. Decoding with replacement yields only Unicode scalar values (no
    surrogate, nothing above U+10FFFF), whatever the bytes are, never more
    characters than there are bytes, and leaves a body of ASCII bytes as it
    is. *)
Theorem utf8_decode_replace_total (bs : bytes) :
  Forall (fun c => is_scalar c = true) (utf8_decode_replace bs) /\
  (List.length (utf8_decode_replace bs) <= List.length bs)%nat /\
  (Forall (fun b => b < 128) bs -> utf8_decode_replace bs = bs).
Proof.
  destruct (utf8_decode_replace_scalar (List.length bs) bs (le_n _)) as [F L].
  split; [exact F|]. split; [exact L|]. apply utf8_decode_replace_ascii.
Qed.

Lemma utf8_decode_replace_total_witness :
  utf8_decode_replace [60; 116; 100; 62] = [60; 116; 100; 62].
Proof.
  apply (proj2 (proj2 (utf8_decode_replace_total [60; 116; 100; 62]))).
  repeat constructor.
Defined.

(** ** How a run ends *)

(** The exceptions [main] can raise, with the effects before an exit of
    argparse. *)
Lemma main_raise_cases (w : World) (t : list event) (e : exn) :
  main w = (t, Raise e) ->
  ((exists code, e = SystemExit code) /\ t = []) \/
  (exists o d, e = LibraryError o d /\ o <> FromRequests) \/
  (exists msg, e = RuntimeError msg /\
               (msg = MSG_NO_NAME \/ msg = MSG_NO_TABLE \/
                msg = MSG_MISSING_BS4)).
Proof.
  rewrite main_run.
  destruct (parse_args w) as [args|e0] eqn:A.
  2:{ ended. apply parse_args_raises in A as [[c ->]|[d ->]].
      - left. split; [now exists c | reflexivity].
      - right. left. exists FromPath, d. now split. }
  destruct (path_resolve w (out_dir args)) as [dir|d].
  2:{ ended. right. left. exists FromPath, d. now split. }
  cbv zeta.
  destruct (path_mkdir w dir) as [[]|d].
  2:{ ended. right. left. exists FromMkdir, d. now split. }
  destruct (derive_base (url args)) as [base|e1] eqn:D.
  2:{ ended. apply derive_base_raises in D. subst e1.
      right. right. exists MSG_NO_NAME. auto. }
  pose proof (proj2 (fetch_html_cases w (url args))) as Hf.
  destruct (fetch_html w (url args)) as [tf [html|e2]]; cbn [snd] in Hf.
  2:{ ended. destruct (Hf e2 eq_refl) as [d ->].
      right. left. exists FromUrlopen, d. now split. }
  destruct (extract_simplified (BeautifulSoup w) html) as [simplified|e3] eqn:X.
  2:{ ended. right. right.
      apply extract_simplified_raises in X as [->| ->]; eauto. }
  destruct (path_open w (dir ++ [csv_name base])) as [[]|d].
  2:{ ended. right. left. exists FromOpen, d. now split. }
  destruct (write_items_trace w simplified 0) as (j & _ & _ & Hr).
  destruct (write_items w 0 simplified) as [tw [[]|e4]]; cbn [snd] in Hr;
    [discriminate|].
  ended. destruct (Hr e4 eq_refl) as [d ->].
  right. left. exists FromWrite, d. now split.
Qed.

(** A run that returns has done something, and returns 0. *)
Lemma main_returns (w : World) (t : list event) (n : N) :
  main w = (t, Ok n) -> n = 0 /\ t <> [].
Proof.
  rewrite main_run.
  destruct (parse_args w) as [args|e0]; [|discriminate].
  destruct (path_resolve w (out_dir args)) as [dir|d]; [|discriminate].
  cbv zeta.
  destruct (path_mkdir w dir) as [[]|d]; [|discriminate].
  destruct (derive_base (url args)) as [base|e1]; [|discriminate].
  destruct (fetch_html w (url args)) as [tf [html|e2]]; [|discriminate].
  destruct (extract_simplified (BeautifulSoup w) html) as [simplified|e3];
    [|discriminate].
  destruct (path_open w (dir ++ [csv_name base])) as [[]|d]; [|discriminate].
  destruct (write_items w 0 simplified) as [tw [[]|e4]]; [|discriminate].
  intros [= <- <-]. split; [reflexivity | discriminate].
Qed.



(** X8. The script exits with the value of [main], which is 0, when [main]
    returns: status 0 after at least one effect means [main] returned. It
    reports an exception exactly when [main] raised one that is not an exit,
    and then exits with status 1. An exit of argparse is not reported, keeps
    its status and comes before any effect. *)
Theorem script_exit_status (w : World) :
  effects (script w) = fst (main w) /\
  ((exit_status (script w) = 0 /\ effects (script w) <> [] /\
    reported (script w) = None) <->
   exists n, snd (main w) = Ok n) /\
  (forall e, reported (script w) = Some e <->
             snd (main w) = Raise e /\ is_Exception e = true) /\
  (forall e, reported (script w) = Some e -> exit_status (script w) = 1) /\
  (forall code, snd (main w) = Raise (SystemExit code) ->
                exit_status (script w) = code /\
                reported (script w) = None /\ effects (script w) = []).
Proof.
  unfold script.
  pose proof (main_raise_cases w) as RC. pose proof (main_returns w) as MR.
  destruct (main w) as [t [n|e]]; cbn [fst snd].
  - destruct (MR t n eq_refl) as [-> NE]. cbn.
    split; [reflexivity|]. split; [|split; [|split]].
    + split; [eauto | now intros _].
    + intros e. split; [discriminate | now intros [[=] _]].
    + discriminate.
    + discriminate.
  - specialize (RC t e eq_refl).
    destruct e as [msg| | |code|msg|o d]; cbn;
      (split; [reflexivity|]); (split; [|split; [|split]]);
      try (split; [now intros (_ & _ & [=]) | now intros [n [=]]]);
      try (intros e'; split; [now intros [= <-] | now intros [[= <-] _]]);
      try (intros e' _; reflexivity); try discriminate.
    + split; [|now intros [n [=]]].
      destruct RC as [[_ ->]|[(o & d & [=] & _)|(m & [=] & _)]].
      now intros (_ & NE & _).
    + intros e'. split; [discriminate | now intros [[= <-] [=]]].
    + intros c [= <-].
      destruct RC as [[_ ->]|[(o & d & [=] & _)|(m & [=] & _)]]. auto.
Qed.

Lemma script_exit_status_witness :
  reported (script hollow_world) = Some (RuntimeError MSG_NO_TABLE).
Proof.
  apply (proj1 (proj2 (proj2 (script_exit_status hollow_world)))
               (RuntimeError MSG_NO_TABLE)).
  split; reflexivity.
Defined.

(** ** The output file during a run *)

Lemma write_items_writes (w : World) (simplified : list pystr) (k : nat) :
  Forall (fun ev => exists data, ev = WriteFile data)
         (fst (write_items w k simplified)).
Proof.
  destruct (write_items_trace w simplified k) as (j & -> & _).
  apply Forall_forall. intros ev Hev.
  apply in_map_iff in Hev as (item & <- & _). eauto.
Qed.

Lemma fetch_events_no_file (tf : list event) :
  Forall (fun ev => is_fetch_event ev = true) tf ->
  Forall (fun ev => is_file_event ev = false) tf.
Proof. apply Forall_impl, fetch_event_not_file. Qed.

(** X9. In every run the output file is opened at most once and written
    only between its opening and its closing. When the opening fails nothing
    is written and the run ends there; when it succeeds the file is closed,
    also in a run that a failed write ends, and nothing touches the file
    after the closing. *)
Theorem main_closes_file (w : World) (t : list event) (r : result N) :
  main w = (t, r) ->
  Forall (fun ev => is_file_event ev = false) t \/
  exists pre p tw post,
    t = pre ++ OpenFile p (str "w") [] (str "utf-8-sig") :: tw ++ post /\
    Forall (fun ev => is_file_event ev = false) pre /\
    Forall (fun ev => exists data, ev = WriteFile data) tw /\
    ((exists d, path_open w p = Failed d /\ tw = [] /\ post = [] /\
                r = Raise (LibraryError FromOpen d)) \/
     (path_open w p = Done tt /\
      exists rest, post = CloseFile :: rest /\
                   Forall (fun ev => is_file_event ev = false) rest)).
Proof.
  rewrite main_run.
  destruct (parse_args w) as [args|e0].
  2:{ ended. left. constructor. }
  destruct (path_resolve w (out_dir args)) as [dir|d].
  2:{ ended. left. constructor. }
  cbv zeta.
  destruct (path_mkdir w dir) as [[]|d].
  2:{ ended. left. now repeat constructor. }
  destruct (derive_base (url args)) as [base|e1].
  2:{ ended. left. now repeat constructor. }
  pose proof (proj1 (fetch_html_cases w (url args))) as Hf.
  destruct (fetch_html w (url args)) as [tf [html|e2]]; cbn [fst] in Hf.
  2:{ ended. left. now apply no_file_event_fetch. }
  destruct (extract_simplified (BeautifulSoup w) html) as [simplified|e3].
  2:{ ended. left. now apply no_file_event_fetch. }
  assert (Pre : Forall (fun ev => is_file_event ev = false)
                       (Mkdir dir true true :: tf))
    by now apply no_file_event_fetch.
  destruct (path_open w (dir ++ [csv_name base])) as [[]|d] eqn:O.
  - pose proof (write_items_writes w simplified 0) as Hw.
    destruct (write_items w 0 simplified) as [tw [[]|e4]]; cbn [fst] in Hw;
      ended; right;
      exists (Mkdir dir true true :: tf), (dir ++ [csv_name base]), tw.
    + exists [CloseFile; Print (List.length simplified) (dir ++ [csv_name base])].
      split; [reflexivity|]. split; [exact Pre|]. split; [exact Hw|].
      right. split; [exact O|]. eexists. split; [reflexivity|].
      now repeat constructor.
    + exists [CloseFile].
      split; [reflexivity|]. split; [exact Pre|]. split; [exact Hw|].
      right. split; [exact O|]. exists []. split; [reflexivity|constructor].
  - ended. right.
    exists (Mkdir dir true true :: tf), (dir ++ [csv_name base]), [], [].
    split; [reflexivity|]. split; [exact Pre|]. split; [constructor|].
    left. now exists d.
Qed.

Lemma main_closes_file_witness :
  Forall (fun ev => is_file_event ev = false)
         [Mkdir [str "out"] true true] \/
  exists pre p tw post,
    [Mkdir [str "out"] true true]
    = pre ++ OpenFile p (str "w") [] (str "utf-8-sig") :: tw ++ post /\
    Forall (fun ev => is_file_event ev = false) pre /\
    Forall (fun ev => exists data, ev = WriteFile data) tw /\
    ((exists d, path_open (sample_world [SeenUrl [SLASH]]) p = Failed d /\
                tw = [] /\ post = [] /\
                @Raise N (RuntimeError MSG_NO_NAME)
                = Raise (LibraryError FromOpen d)) \/
     (path_open (sample_world [SeenUrl [SLASH]]) p = Done tt /\
      exists rest, post = CloseFile :: rest /\
                   Forall (fun ev => is_file_event ev = false) rest)).
Proof.
  apply (main_closes_file (sample_world [SeenUrl [SLASH]])
                          [Mkdir [str "out"] true true]
                          (Raise (RuntimeError MSG_NO_NAME))).
  reflexivity.
Defined.

Lemma derive_base_ok (url base : pystr) :
  derive_base url = Ok base -> base <> [] /\ ~ In SLASH base.
Proof.
  unfold derive_base, last_item.
  pose proof (split_no_sep SLASH (rstrip (str "/") url)) as NS.
  destruct (rev (split SLASH (rstrip (str "/") url))) as [|b rinit] eqn:R;
    [discriminate|].
  cbn [bind]. destruct (truthy b) eqn:T; [|discriminate]. intros [= <-].
  split; [now apply truthy_true|].
  rewrite Forall_forall in NS. apply NS. apply (proj2 (in_rev _ _)).
  assert (H : In b (b :: rinit)) by now left.
  rewrite <- R in H. exact H.
Qed.

(** X10. A run that returns has performed exactly these effects, in this
    order: the directory creation, the fetch, the opening of [base.csv] in
    the resolved directory, one write for each extracted value, the closing,
    and the summary, which names that file and counts the values. The file
    name holds no slash and it returns 0. *)
Theorem main_success (w : World) (t : list event) (n : N) :
  main w = (t, Ok n) ->
  exists args dir base tf html simplified,
    parse_args w = Ok args /\
    path_resolve w (out_dir args) = Done dir /\
    derive_base (url args) = Ok base /\
    fetch_html w (url args) = (tf, Ok html) /\
    extract_simplified (BeautifulSoup w) html = Ok simplified /\
    t = Mkdir dir true true
          :: tf
          ++ OpenFile (dir ++ [csv_name base]) (str "w") [] (str "utf-8-sig")
          :: map (fun item => WriteFile (writerow [item])) simplified
          ++ [CloseFile;
              Print (List.length simplified) (dir ++ [csv_name base])] /\
    ~ In SLASH (csv_name base) /\
    n = 0.
Proof.
  rewrite main_run.
  destruct (parse_args w) as [args|e0] eqn:A; [|discriminate].
  destruct (path_resolve w (out_dir args)) as [dir|d] eqn:R; [|discriminate].
  cbv zeta.
  destruct (path_mkdir w dir) as [[]|d]; [|discriminate].
  destruct (derive_base (url args)) as [base|e1] eqn:D; [|discriminate].
  destruct (fetch_html w (url args)) as [tf [html|e2]] eqn:F; [|discriminate].
  destruct (extract_simplified (BeautifulSoup w) html) as [simplified|e3] eqn:X;
    [|discriminate].
  destruct (path_open w (dir ++ [csv_name base])) as [[]|d]; [|discriminate].
  destruct (write_items_trace w simplified 0) as (j & Ht & Hok & _).
  destruct (write_items w 0 simplified) as [tw [[]|e4]]; [|discriminate].
  cbn [fst snd] in *. rewrite (Hok tt eq_refl) in Ht. subst tw.
  intros [= <- <-].
  exists args, dir, base, tf, html, simplified.
  do 6 (split; [solve [reflexivity | eassumption]|]). split; [|reflexivity].
  destruct (derive_base_ok _ _ D) as [_ NS]. unfold csv_name.
  intros H. apply in_app_or in H as [H|H]; [now apply NS|].
  vm_compute in H. intuition discriminate.
Qed.

Lemma main_success_witness :
  exists args dir base tf html simplified,
    parse_args (sample_world [SeenUrl FOO_URL]) = Ok args /\
    path_resolve (sample_world [SeenUrl FOO_URL]) (out_dir args) = Done dir /\
    derive_base (url args) = Ok base /\
    fetch_html (sample_world [SeenUrl FOO_URL]) (url args) = (tf, Ok html) /\
    extract_simplified (BeautifulSoup (sample_world [SeenUrl FOO_URL])) html
    = Ok simplified /\
    fst (main (sample_world [SeenUrl FOO_URL]))
    = Mkdir dir true true
        :: tf
        ++ OpenFile (dir ++ [csv_name base]) (str "w") [] (str "utf-8-sig")
        :: map (fun item => WriteFile (writerow [item])) simplified
        ++ [CloseFile;
            Print (List.length simplified) (dir ++ [csv_name base])] /\
    ~ In SLASH (csv_name base) /\
    0 = 0.
Proof.
  apply (main_success (sample_world [SeenUrl FOO_URL])
                      (fst (main (sample_world [SeenUrl FOO_URL]))) 0).
  reflexivity.
Defined.

(** ** A run without BeautifulSoup *)

(** X11. Without BeautifulSoup a run never returns and never touches the
    output file, but the missing dependency is found only after the
    directory has been created and the page fetched: the run ends with the
    "Missing dependency" error exactly when all the steps up to and including
    the fetch succeeded, and its effects are then the directory creation and
    those of the fetch. *)
Theorem main_without_bs4 (w : World) (t : list event) (r : result N) :
  BeautifulSoup w = None ->
  main w = (t, r) ->
  (exists e, r = Raise e) /\
  Forall (fun ev => is_file_event ev = false) t /\
  (r = Raise (RuntimeError MSG_MISSING_BS4) <->
   exists args dir base html,
     parse_args w = Ok args /\
     path_resolve w (out_dir args) = Done dir /\
     path_mkdir w dir = Done tt /\
     derive_base (url args) = Ok base /\
     snd (fetch_html w (url args)) = Ok html /\
     t = Mkdir dir true true :: fst (fetch_html w (url args))).
Proof.
  intros B. rewrite main_run, B.
  destruct (parse_args w) as [args|e0] eqn:A.
  2:{ ended. split; [eauto|]. split; [constructor|]. split.
      - intros [= ->]. apply parse_args_raises in A as [[c [=]]|[d [=]]].
      - now intros (a & _ & _ & _ & [=] & _). }
  destruct (path_resolve w (out_dir args)) as [dir|d] eqn:R.
  2:{ ended. split; [eauto|]. split; [constructor|]. split; [discriminate|].
      intros (a & d' & _ & _ & [= <-] & H & _). congruence. }
  cbv zeta.
  destruct (path_mkdir w dir) as [[]|d] eqn:M.
  2:{ ended. split; [eauto|]. split; [now repeat constructor|].
      split; [discriminate|].
      intros (a & d' & _ & _ & [= <-] & H & H' & _). congruence. }
  destruct (derive_base (url args)) as [base|e1] eqn:D.
  2:{ ended. split; [eauto|]. split; [now repeat constructor|]. split.
      - intros [= ->]. apply derive_base_raises in D. discriminate.
      - intros (a & d' & b & h & [= <-] & _ & _ & H & _). congruence. }
  pose proof (fetch_html_cases w (url args)) as [Hf He].
  destruct (fetch_html w (url args)) as [tf [html|e2]] eqn:F;
    cbn [fst snd] in *.
  - unfold extract_simplified. ended.
    split; [eauto|]. split; [now apply no_file_event_fetch|].
    split; [|reflexivity]. intros _.
    exists args, dir, base, html. rewrite F. now repeat split.
  - ended. split; [eauto|]. split; [now apply no_file_event_fetch|]. split.
    + intros [= ->]. destruct (He _ eq_refl) as [d [=]].
    + intros (a & d' & b & h & [= <-] & _ & _ & _ & H & _).
      rewrite F in H. discriminate.
Qed.

Lemma main_without_bs4_witness :
  (exists e, @Raise N (RuntimeError MSG_MISSING_BS4) = Raise e) /\
  Forall (fun ev => is_file_event ev = false)
         (fst (main no_bs4_world)) /\
  (@Raise N (RuntimeError MSG_MISSING_BS4) = Raise (RuntimeError MSG_MISSING_BS4)
   <->
   exists args dir base html,
     parse_args no_bs4_world = Ok args /\
     path_resolve no_bs4_world (out_dir args) = Done dir /\
     path_mkdir no_bs4_world dir = Done tt /\
     derive_base (url args) = Ok base /\
     snd (fetch_html no_bs4_world (url args)) = Ok html /\
     fst (main no_bs4_world)
     = Mkdir dir true true :: fst (fetch_html no_bs4_world (url args))).
Proof.
  apply (main_without_bs4 no_bs4_world).
  - reflexivity.
  - reflexivity.
Defined.

(** ** The text of the file *)

(** X12. The text written determines the values: two lists of values that
    give the same file, with the header or without it, are the same list. *)
Theorem csv_output_injective (no_header : bool) (a b : list pystr) :
  csv_output no_header a = csv_output no_header b -> a = b.
Proof.
  unfold csv_output. intros H. apply app_inv_head in H.
  apply (f_equal csv_read) in H. rewrite !csv_read_items in H.
  injection H as H. revert b H.
  induction a as [|x a IH]; intros [|y b] H; try discriminate; [reflexivity|].
  cbn [map] in H. injection H as -> H. f_equal. now apply IH.
Qed.

Lemma csv_output_injective_witness : [[97; 44; 98]] = [[97; 44; 98]].
Proof.
  apply (csv_output_injective true [[97; 44; 98]] [[97; 44; 98]]).
  reflexivity.
Defined.

(** X13. A value that is not empty and holds no comma, quote, carriage return
    or line feed is written as it is, followed by CR LF: the file of such
    values is the values each followed by CR LF. Any other value is written
    between quotes, each of its quotes twice. *)
Theorem csv_output_plain (simplified : list pystr) :
  (Forall (fun v => v <> [] /\ existsb needs_quote v = false) simplified ->
   csv_output true simplified = flat_map (fun v => v ++ [CR; LF]) simplified) /\
  (forall v, In v simplified ->
             v = [] \/ existsb needs_quote v = true ->
             writerow [v] = QUOTECHAR :: copy_field v ++ [QUOTECHAR; CR; LF] /\
             List.length (writerow [v])
             = (List.length v + count_occ N.eq_dec v QUOTECHAR + 4)%nat).
Proof.
  split.
  - unfold csv_output. cbn [negb app].
    induction 1 as [|v vs [NE Q] _ IH]; [reflexivity|].
    cbn [flat_map]. rewrite IH. f_equal.
    unfold writerow, join_append. cbn [List.length Nat.eqb map join].
    rewrite Q. apply truthy_true in NE. rewrite NE. cbn [negb andb orb].
    now rewrite (copy_field_plain _ (existsb_false_Forall _ _ Q)).
  - intros v _ Hv.
    assert (W : writerow [v] = QUOTECHAR :: copy_field v ++ [QUOTECHAR; CR; LF]).
    { unfold writerow, join_append. cbn [List.length Nat.eqb map join].
      assert (Q : existsb needs_quote v || negb (truthy v) && true = true).
      { destruct Hv as [->| ->]; [reflexivity | apply orb_true_l]. }
      rewrite Q. unfold LINETERMINATOR. cbn [app].
      now rewrite <- app_assoc. }
    split; [exact W|]. rewrite W. cbn [List.length]. rewrite length_app.
    cbn [List.length].
    assert (L : List.length (copy_field v)
                = (List.length v + count_occ N.eq_dec v QUOTECHAR)%nat).
    { clear. induction v as [|c v IH]; [reflexivity|].
      cbn [copy_field count_occ]. destruct (N.eq_dec c QUOTECHAR) as [->|NE].
      - change (char_eqb QUOTECHAR QUOTECHAR) with true. cbn [List.length].
        rewrite IH. lia.
      - assert (E : char_eqb c QUOTECHAR = false) by now apply N.eqb_neq.
        rewrite E. cbn [List.length]. rewrite IH. lia. }
    rewrite L. lia.
Qed.

Lemma csv_output_plain_witness :
  csv_output true [[30340]; str "de"]
  = flat_map (fun v => v ++ [CR; LF]) [[30340]; str "de"].
Proof.
  apply (proj1 (csv_output_plain [[30340]; str "de"])).
  repeat constructor; discriminate.
Defined.

(** ** The command line *)

Lemma store_url_last (seen : list option_seen) (acc : option pystr) :
  fold_left (fun acc o => match o with SeenUrl v => Some v | _ => acc end)
            seen acc
  = match rev (url_values seen) with
    | u :: _ => Some u
    | [] => acc
    end.
Proof.
  revert acc; induction seen as [|o seen IH]; intros acc; [reflexivity|].
  cbn [fold_left]. rewrite IH. unfold url_values. cbn [flat_map].
  destruct o as [v|v|]; cbn [app]; try reflexivity.
  cbn [rev].
  destruct (rev (flat_map (fun o => match o with
                                    | SeenUrl v => [v]
                                    | _ => []
                                    end) seen)); reflexivity.
Qed.

Lemma store_dir_last (seen : list option_seen) (default : pystr) :
  store_dir default seen
  = match rev (dir_values seen) with
    | d :: _ => d
    | [] => default
    end.
Proof.
  unfold store_dir. revert default.
  induction seen as [|o seen IH]; intros default; [reflexivity|].
  cbn [fold_left]. rewrite IH. unfold dir_values. cbn [flat_map].
  destruct o as [v|v|]; cbn [app]; try reflexivity.
  cbn [rev].
  destruct (rev (flat_map (fun o => match o with
                                    | SeenDir v => [v]
                                    | _ => []
                                    end) seen)); reflexivity.
Qed.

(** X14. [parse_args] fails when [Path.home()] fails, even if [--dir] is
    given, because the default directory is computed first. Otherwise an
    exit of argparse is raised as it is, a command line without [--url]
    exits with status 2, and with [--url] the result holds the last value
    given for [--url], the last value given for [--dir] or else the
    Documents directory of the home, and [no_header] true. *)
Theorem parse_args_spec (w : World) :
  (forall d, path_home w = Failed d ->
             parse_args w = Raise (LibraryError FromPath d)) /\
  (forall home code,
      path_home w = Done home -> argv_options w = Exit code ->
      parse_args w = Raise (SystemExit code)) /\
  (forall home seen,
      path_home w = Done home -> argv_options w = Options seen ->
      parse_args w =
      match rev (url_values seen) with
      | [] => Raise (SystemExit 2)
      | u :: _ =>
          Ok (mkNamespace
                u
                match rev (dir_values seen) with
                | d :: _ => d
                | [] => path_str (home ++ [str "Documents"])
                end
                true)
      end).
Proof.
  unfold parse_args. split; [|split].
  - intros d ->. reflexivity.
  - intros home code -> ->. reflexivity.
  - intros home seen -> ->. cbn [library_call bind].
    unfold store_url. rewrite store_url_last, store_dir_last,
      store_true_default_true.
    destruct (rev (url_values seen)); reflexivity.
Qed.

(** The option given twice: the last value is kept. *)
Lemma parse_args_spec_witness :
  parse_args (sample_world [SeenUrl (str "http://a/x"); SeenDir (str "/tmp");
                            SeenUrl FOO_URL])
  = Ok (mkNamespace FOO_URL (str "/tmp") true).
Proof.
  exact (proj2 (proj2 (parse_args_spec
           (sample_world [SeenUrl (str "http://a/x"); SeenDir (str "/tmp");
                          SeenUrl FOO_URL])))
           [str "home"; str "user"]
           [SeenUrl (str "http://a/x"); SeenDir (str "/tmp"); SeenUrl FOO_URL]
           eq_refl eq_refl).
Defined.
